(** * Organisation-settings reconciliation: the diff engine, the prompt,
      the backup file name and the configure/restore loops.

    Shallow embedding of [src/utils/settings-diff.js], [src/utils/prompt.js],
    [src/utils/backup.js], [src/services/organization.service.js] and of the
    [configure-org] / [restore-org] actions of [src/cli.js]. *)

From Stdlib Require Import List String Ascii ZArith Bool Arith Lia.
From Stdlib Require Import Permutation Sorted.
From Stdlib Require Import DecimalString DecimalNat.
Import ListNotations.
Open Scope string_scope.
Open Scope list_scope.

Set Implicit Arguments.
Set Warnings "-register-all".

(* ================================================================== *)
(** * JavaScript values *)
(* ================================================================== *)

Module Js.

(** The values the settings files and the platform's answers are made of
    (what [JSON.parse] produces), plus [undefined], which a property read
    yields for a missing key.  Numbers are the integer ones.  An object is
    the list of its own enumerable properties in [Object.entries] order. *)
Inductive value : Type :=
| VUndefined
| VNull
| VBool (b : bool)
| VNum (n : Z)
| VStr (s : string)
| VArr (items : list value)
| VObj (props : list (string * value)).

Definition object := list (string * value).

(** [typeof v] *)
Definition typeof (v : value) : string :=
  match v with
  | VUndefined => "undefined"
  | VNull => "object"
  | VBool _ => "boolean"
  | VNum _ => "number"
  | VStr _ => "string"
  | VArr _ => "object"
  | VObj _ => "object"
  end.

(** [a === b].  Primitives compare by value.  Two composite operands are
    equal only when they are the same heap object; the operands met here are
    parsed from different sources (the platform's answer, a settings file, a
    backup), hence distinct objects.  [isEqual_refl] below shows that the
    answer of [isEqual] on one and the same object is the one its structural
    branch computes anyway. *)
Definition strict_eq (a b : value) : bool :=
  match a, b with
  | VUndefined, VUndefined => true
  | VNull, VNull => true
  | VBool x, VBool y => Bool.eqb x y
  | VNum x, VNum y => Z.eqb x y
  | VStr x, VStr y => String.eqb x y
  | _, _ => false
  end.

(** [v == null] *)
Definition is_nullish (v : value) : bool :=
  match v with
  | VUndefined | VNull => true
  | _ => false
  end.

(** The decimal name of an array index, as [Object.keys] gives it. *)
Definition index_key (i : nat) : string :=
  NilEmpty.string_of_uint (Nat.to_uint i).

Fixpoint index_from (i : nat) (items : list value) : object :=
  match items with
  | [] => []
  | v :: rest => (index_key i, v) :: index_from (S i) rest
  end.

(** Own enumerable properties of a value of type ['object']. *)
Definition own_entries (v : value) : object :=
  match v with
  | VObj props => props
  | VArr items => index_from 0 items
  | _ => []
  end.

(** [Object.keys(o)] *)
Definition keys (o : object) : list string := map fst o.

(** [ks.includes(k)] *)
Fixpoint includes (k : string) (ks : list string) : bool :=
  match ks with
  | [] => false
  | k' :: rest => if String.eqb k' k then true else includes k rest
  end.

(** [o[k]] on own properties: [undefined] when the key is missing. *)
Fixpoint get (o : object) (k : string) : value :=
  match o with
  | [] => VUndefined
  | (k', v) :: rest => if String.eqb k' k then v else get rest k
  end.

(** [k in o] *)
Definition has (o : object) (k : string) : bool := includes k (keys o).

End Js.
Export Js.

(* ================================================================== *)
(** * settings-diff.js *)
(* ================================================================== *)

Module SettingsDiff.

(** [SettingsDiff.isEqual(a, b)].  The loop over [aKeys] is the inner
    fixpoint; it runs over [a]'s own entries, [a[key]] being the value of the
    entry whose key is visited. *)
Fixpoint isEqual (a b : value) {struct a} : bool :=
  if strict_eq a b then true
  else if is_nullish a || is_nullish b then false
  else if negb (String.eqb (typeof a) (typeof b)) then false
  else
    let bEntries := own_entries b in
    let bKeys := keys bEntries in
    match a with
    | VObj aProps =>
        if negb (Nat.eqb (List.length aProps) (List.length bKeys)) then false
        else
          (fix loop (l : list (string * value)) : bool :=
             match l with
             | [] => true
             | (key, av) :: rest =>
                 if negb (includes key bKeys) then false
                 else if negb (isEqual av (get bEntries key)) then false
                 else loop rest
             end) aProps
    | VArr aItems =>
        if negb (Nat.eqb (List.length aItems) (List.length bKeys)) then false
        else
          (fix loop (i : nat) (l : list value) : bool :=
             match l with
             | [] => true
             | av :: rest =>
                 if negb (includes (index_key i) bKeys) then false
                 else if negb (isEqual av (get bEntries (index_key i))) then false
                 else loop (S i) rest
             end) 0%nat aItems
    | _ => false
    end.

Inductive ChangeType : Type := add | update | remove.

Record Change : Type := mkChange {
  key : string;
  type : ChangeType;
  currentValue : value;
  newValue : value
}.

(** First loop of [compare]: new or changed settings. *)
Fixpoint changed (current : object) (desiredEntries : object) : list Change :=
  match desiredEntries with
  | [] => []
  | (k, desiredValue) :: rest =>
      let cv := get current k in
      if negb (isEqual cv desiredValue)
      then mkChange k (if strict_eq cv VUndefined then add else update)
                    cv desiredValue :: changed current rest
      else changed current rest
  end.

(** Second loop of [compare]: removed settings. *)
Fixpoint removed (current : object) (currentKeys : list string)
         (desired : object) : list Change :=
  match currentKeys with
  | [] => []
  | k :: rest =>
      if negb (has desired k)
      then mkChange k remove (get current k) VUndefined
             :: removed current rest desired
      else removed current rest desired
  end.

(** [SettingsDiff.compare(current, desired)] *)
Definition compare (current desired : object) : list Change :=
  changed current desired ++ removed current (keys current) desired.

End SettingsDiff.
Export SettingsDiff.

(* ================================================================== *)
(** * Strings *)
(* ================================================================== *)

Module JsString.

Local Open Scope string_scope.

(** A string is the sequence of its code units, here those below 256. *)

(** White space and line terminators among them: what [trim] strips and
    what the pattern [\s] matches. *)
Definition is_space (c : ascii) : bool :=
  let n := nat_of_ascii c in
  (((9 <=? n) && (n <=? 13)) || (n =? 32) || (n =? 160))%nat.

Definition is_upper (c : ascii) : bool :=
  let n := nat_of_ascii c in
  (((65 <=? n) && (n <=? 90))
   || ((192 <=? n) && (n <=? 222) && negb (n =? 215)))%nat.

Definition lower_char (c : ascii) : ascii :=
  if is_upper c then ascii_of_nat (nat_of_ascii c + 32) else c.

(** [s.toLowerCase()] *)
Fixpoint toLowerCase (s : string) : string :=
  match s with
  | EmptyString => EmptyString
  | String c rest => String (lower_char c) (toLowerCase rest)
  end.

Fixpoint trimStart (s : string) : string :=
  match s with
  | EmptyString => EmptyString
  | String c rest => if is_space c then trimStart rest else s
  end.

Fixpoint trimEnd (s : string) : string :=
  match s with
  | EmptyString => EmptyString
  | String c rest =>
      match trimEnd rest with
      | EmptyString => if is_space c then EmptyString else String c EmptyString
      | rest' => String c rest'
      end
  end.

(** [s.trim()] *)
Definition trim (s : string) : string := trimEnd (trimStart s).

(** [s.replace(/[...]/g, by)] for a character class given as a predicate. *)
Fixpoint replace_class (cls : ascii -> bool) (by_ : string) (s : string) : string :=
  match s with
  | EmptyString => EmptyString
  | String c rest =>
      if cls c then by_ ++ replace_class cls by_ rest
      else String c (replace_class cls by_ rest)
  end.

(** [s.replace(c, by)] with a one-character string pattern: the first
    occurrence only. *)
Fixpoint replace_first (c : ascii) (by_ : string) (s : string) : string :=
  match s with
  | EmptyString => EmptyString
  | String c' rest =>
      if Ascii.eqb c' c then by_ ++ rest
      else String c' (replace_first c by_ rest)
  end.

(** [s.split(c)[0]]: the part before the first [c], the whole string when
    there is none. *)
Fixpoint split_head (c : ascii) (s : string) : string :=
  match s with
  | EmptyString => EmptyString
  | String c' rest =>
      if Ascii.eqb c' c then EmptyString else String c' (split_head c rest)
  end.

(** [s.replace(/\s+/g, by)]: every maximal run of white space becomes one
    [by]. *)
Fixpoint replace_space_runs (by_ : string) (in_run : bool) (s : string) : string :=
  match s with
  | EmptyString => EmptyString
  | String c rest =>
      if is_space c
      then (if in_run then replace_space_runs by_ true rest
            else by_ ++ replace_space_runs by_ true rest)
      else String c (replace_space_runs by_ false rest)
  end.

(** The double-quote character, for messages that quote a name. *)
Definition dquote : string := String (ascii_of_nat 34) EmptyString.
Definition quoted (s : string) : string := dquote ++ s ++ dquote.

(** [s1.startsWith(s2)] is [String.prefix s2 s1]; [s.includes(t)]: *)
Fixpoint contains (t s : string) : bool :=
  if String.prefix t s then true
  else match s with
       | EmptyString => false
       | String _ rest => contains t rest
       end.

End JsString.
Export JsString.

Local Open Scope string_scope.

(** [String(v)]; numbers are printed in decimal. *)
Fixpoint String_ (v : value) : string :=
  match v with
  | VUndefined => "undefined"
  | VNull => "null"
  | VBool true => "true"
  | VBool false => "false"
  | VNum n => NilZero.string_of_int (Z.to_int n)
  | VStr s => s
  | VArr items =>
      (fix join (first : bool) (l : list value) : string :=
         match l with
         | [] => EmptyString
         | x :: rest =>
             (if first then EmptyString else ",")
             ++ (if is_nullish x then EmptyString else String_ x)
             ++ join false rest
         end) true items
  | VObj _ => "[object Object]"
  end.

(** Truthiness of a value in a condition. *)
Definition truthy (v : value) : bool :=
  match v with
  | VUndefined | VNull => false
  | VBool b => b
  | VNum n => negb (Z.eqb n 0)
  | VStr s => negb (String.eqb s EmptyString)
  | VArr _ | VObj _ => true
  end.

(** [v.k] on an object answer. *)
Definition prop (v : value) (k : string) : value := get (own_entries v) k.

(** [o[k] = v] *)
Fixpoint set (o : object) (k : string) (v : value) : object :=
  match o with
  | [] => [(k, v)]
  | (k', v') :: rest =>
      if String.eqb k' k then (k', v) :: rest else (k', v') :: set rest k v
  end.

(* ================================================================== *)
(** * prompt.js *)
(* ================================================================== *)

Module PromptManager.

(** What [confirm] resolves to, given the line the user typed. *)
Definition confirm (answer : string) : bool :=
  let normalized := toLowerCase (trim answer) in
  negb (String.eqb normalized "n") && negb (String.eqb normalized "no").

End PromptManager.

(* ================================================================== *)
(** * backup.js *)
(* ================================================================== *)

Module BackupManager.

Local Open Scope string_scope.

(** An instant, by the UTC fields [toISOString] prints. *)
Record Date : Type := mkDate {
  year : nat; month : nat; day : nat;
  hours : nat; minutes : nat; seconds : nat; milliseconds : nat
}.

Definition digit (n : nat) : ascii := ascii_of_nat (48 + n mod 10).

Definition pad2 (n : nat) : string :=
  String (digit (n / 10)) (String (digit n) EmptyString).
Definition pad3 (n : nat) : string := String (digit (n / 100)) (pad2 n).
Definition pad4 (n : nat) : string := String (digit (n / 1000)) (pad3 n).

(** [d.toISOString()], for the years 0000 to 9999:
    [YYYY-MM-DDTHH:mm:ss.sssZ]. *)
Definition toISOString (d : Date) : string :=
  pad4 (year d) ++ "-" ++ pad2 (month d) ++ "-" ++ pad2 (day d) ++ "T"
  ++ pad2 (hours d) ++ ":" ++ pad2 (minutes d) ++ ":" ++ pad2 (seconds d)
  ++ "." ++ pad3 (milliseconds d) ++ "Z".

Definition colon_or_period (c : ascii) : bool :=
  Ascii.eqb c ":" || Ascii.eqb c ".".

(** The [timestamp] constant of [createBackup]. *)
Definition timestamp (now : Date) : string :=
  split_head "."
    (replace_first "T" "_"
       (replace_class colon_or_period "-" (toISOString now))).

Definition filename (now : Date) : string :=
  "backup-" ++ timestamp now ++ ".json".

(** [path.join(dir, name)] for a plain relative directory. *)
Definition path_join (dir name : string) : string := dir ++ "/" ++ name.

(** The backup document: the metadata time stamp and the settings. *)
Record Backup (S : Type) : Type := mkBackup {
  backup_timestamp : string;
  settings : S
}.

(** The backup directory: file path to content.  [writeFile] replaces the
    content of an existing path. *)
Definition Dir (S : Type) := list (string * Backup S).

Fixpoint writeFile {S} (fs : Dir S) (path : string) (content : Backup S) : Dir S :=
  match fs with
  | [] => [(path, content)]
  | (p, c) :: rest =>
      if String.eqb p path then (p, content) :: rest
      else (p, c) :: writeFile rest path content
  end.

Fixpoint readFile {S} (fs : Dir S) (path : string) : option (Backup S) :=
  match fs with
  | [] => None
  | (p, c) :: rest => if String.eqb p path then Some c else readFile rest path
  end.

(** [createBackup(settings)], run at the instant [now]: the new directory
    and the path returned. *)
Definition createBackup {S} (backupDir : string) (now : Date) (s : S)
           (fs : Dir S) : Dir S * string :=
  let filepath := path_join backupDir (filename now) in
  (writeFile fs filepath (mkBackup (toISOString now) s), filepath).

End BackupManager.

(* ================================================================== *)
(** * The declared configuration *)
(* ================================================================== *)

(** A bypass actor of [branch-rulesets.json]: [team] is the helper field
    that names a team; the other fields are sent as they are. *)
Record Actor : Type := mkActor {
  actor_type : string;
  team : option string;
  actor_id : value;
  actor_rest : object
}.

Record Ruleset : Type := mkRuleset {
  ruleset_name : string;
  bypass_actors : option (list Actor);
  ruleset_rest : object
}.

Record Member : Type := mkMember {
  username : string;
  role : option string
}.

(** A team of [teams.json]. *)
Record Team : Type := mkTeam {
  team_name : string;
  description : option string;
  privacy : option string;
  notification_setting : option string;
  members : option (list Member)
}.

(** [x || d] on an optional string field. *)
Definition or_default (x : option string) (d : string) : string :=
  match x with
  | Some s => if String.eqb s EmptyString then d else s
  | None => d
  end.

(* ================================================================== *)
(** * Effects: the platform, the terminal and the result lists *)
(* ================================================================== *)

(** A thrown [Error]: [status] is set on the errors of the platform's
    client and absent on those made with [new Error(message)]. *)
Record Error : Type := mkError {
  status : option Z;
  message : string
}.

Definition new_Error (msg : string) : Error := mkError None msg.

(** The requests sent through [this.octokit] (the organisation name, which
    every one of them carries, is left out). *)
Inductive call : Type :=
| actions_getOrgVariable (name : string)
| actions_updateOrgVariable (name value_ : string)
| actions_createOrgVariable (name value_ visibility : string)
| actions_getOrgPublicKey
| actions_createOrUpdateOrgSecret (secret_name encrypted_value : string)
                                  (key_id : value) (visibility : string)
| orgs_update (settings : object)
| teams_getByName (team_slug : string)
| repos_createOrgRuleset (ruleset : Ruleset)
| repos_updateOrgRuleset (ruleset_id : value) (ruleset : Ruleset)
| teams_create (name description_ privacy_ notification_setting_ : string)
| teams_updateInOrg (team_slug : value)
                    (name description_ privacy_ notification_setting_ : string)
| teams_addOrUpdateMembershipForUserInOrg (team_slug : value)
                                          (username_ role_ : string).

(** What the program does not decide: the platform's answer to a request
    ([inl] a rejection, [inr] the [data] of the response), the lines the user
    types (by the number of the question), and the two library functions the
    services call. *)
Record Env : Type := mkEnv {
  octokit : call -> Error + value;
  stdin : nat -> string;
  JSON_stringify : value -> string;
  crypto_box_seal : value -> value -> string
}.

Record Results : Type := mkResults {
  successful : list string;
  failed : list string;
  skipped : list string
}.

(** The state a run threads: the questions asked so far, the requests sent
    so far (oldest first) and the [results] object. *)
Record World : Type := mkWorld {
  asked : list string;
  sent : list call;
  results : Results
}.

Module Run.

Local Open Scope list_scope.

Definition M (A : Type) : Type := World -> (Error + A) * World.

Definition ret {A} (a : A) : M A := fun w => (inr a, w).

Definition bind {A B} (m : M A) (f : A -> M B) : M B :=
  fun w =>
    match m w with
    | (inl e, w') => (inl e, w')
    | (inr a, w') => f a w'
    end.

Definition throw {A} (e : Error) : M A := fun w => (inl e, w).

(** [try { body } catch (error) { handler }] *)
Definition try_catch {A} (body : M A) (handler : Error -> M A) : M A :=
  fun w =>
    match body w with
    | (inl e, w') => handler e w'
    | (inr a, w') => (inr a, w')
    end.

Declare Scope run_scope.
Delimit Scope run_scope with run.
Notation "x <- m ;; k" := (bind m (fun x => k))
  (at level 61, m at next level, right associativity) : run_scope.
Notation "m ;; k" := (bind m (fun _ => k))
  (at level 61, right associativity) : run_scope.
Local Open Scope run_scope.

(** [for (const x of l) body] *)
Fixpoint for_of {A} (l : list A) (body : A -> M unit) : M unit :=
  match l with
  | [] => ret tt
  | x :: rest => body x ;; for_of rest body
  end.

Definition push_successful (s : string) : M unit :=
  fun w =>
    let r := results w in
    (inr tt, mkWorld (asked w) (sent w)
               (mkResults (successful r ++ [s]) (failed r) (skipped r))).

Definition push_failed (s : string) : M unit :=
  fun w =>
    let r := results w in
    (inr tt, mkWorld (asked w) (sent w)
               (mkResults (successful r) (failed r ++ [s]) (skipped r))).

Definition push_skipped (s : string) : M unit :=
  fun w =>
    let r := results w in
    (inr tt, mkWorld (asked w) (sent w)
               (mkResults (successful r) (failed r) (skipped r ++ [s]))).

Section WithEnv.

Variable env : Env.

(** [await this.octokit.<request>] *)
Definition request (c : call) : M value :=
  fun w => (octokit env c, mkWorld (asked w) (sent w ++ [c]) (results w)).

(** [await prompt.confirm(question)]: the question is shown and the next
    line typed is read. *)
Definition confirm (question : string) : M bool :=
  fun w =>
    (inr (PromptManager.confirm (stdin env (List.length (asked w)))),
     mkWorld (asked w ++ [(question ++ " (Y/n) ")%string]) (sent w) (results w)).

(** [await prompt.confirmChange(settingName, currentValue, newValue)]; the
    three lines it prints first are not part of the state. *)
Definition confirmChange (settingName : string) (cv nv : value) : M bool :=
  confirm "Apply this change?".

(** ** organization.service.js *)

Definition status_is (e : Error) (code : Z) : bool :=
  match status e with
  | Some c => Z.eqb c code
  | None => false
  end.

Definition setActionVariable (name : string) (v : value) : M unit :=
  try_catch
    (let stringValue :=
       if String.eqb (typeof v) "object" then JSON_stringify env v
       else String_ v in
     try_catch
       (request (actions_getOrgVariable name) ;;
        request (actions_updateOrgVariable name stringValue) ;;
        ret tt)
       (fun error =>
          if status_is error 404
          then request (actions_createOrgVariable name stringValue "all") ;;
               ret tt
          else throw error))
    (fun error =>
       throw (new_Error ("Failed to set variable " ++ name ++ ": "
                         ++ message error)%string)).

Definition setActionSecret (name : string) (v : value) : M unit :=
  try_catch
    (publicKey <- request actions_getOrgPublicKey ;;
     let encrypted_value := crypto_box_seal env v (prop publicKey "key") in
     request (actions_createOrUpdateOrgSecret name encrypted_value
                (prop publicKey "key_id") "all") ;;
     ret tt)
    (fun error =>
       throw (new_Error ("Failed to set secret " ++ name ++ ": "
                         ++ message error)%string)).

Definition updateMemberPrivileges (settings : object) : M unit :=
  try_catch
    (request (orgs_update settings) ;; ret tt)
    (fun error =>
       throw (new_Error ("Failed to update member privileges: "
                         ++ message error)%string)).

Definition getTeamId (teamSlug : string) : M value :=
  try_catch
    (data <- request (teams_getByName teamSlug) ;;
     ret (prop data "id"))
    (fun error =>
       throw (new_Error ("Failed to get team ID for " ++ quoted teamSlug
                         ++ ": " ++ message error)%string)).

(** [actor.actor_type === 'Team' && actor.team]: the name to look up. *)
Definition team_reference (actor : Actor) : option string :=
  if String.eqb (actor_type actor) "Team" then
    match team actor with
    | Some t => if String.eqb t EmptyString then None else Some t
    | None => None
    end
  else None.

(** One turn of the loop of [resolveBypassActors]: the processed actor. *)
Definition resolveActor (actor : Actor) : M Actor :=
  match team_reference actor with
  | Some t =>
      try_catch
        (id <- getTeamId t ;;
         ret (mkActor (actor_type actor) None id (actor_rest actor)))
        (fun error =>
           throw (new_Error ("Failed to resolve team " ++ quoted t ++ ": "
                             ++ message error)%string))
  | None => ret actor
  end.

Fixpoint resolveLoop (actors resolved : list Actor) : M (list Actor) :=
  match actors with
  | [] => ret resolved
  | actor :: rest =>
      processedActor <- resolveActor actor ;;
      resolveLoop rest (resolved ++ [processedActor])
  end.

Definition resolveBypassActors (bypassActors : list Actor) : M (list Actor) :=
  resolveLoop bypassActors [].

(** The ruleset with its bypass actors resolved, as both
    [createBranchRuleset] and [updateBranchRuleset] compute it. *)
Definition processRuleset (ruleset : Ruleset) : M Ruleset :=
  match bypass_actors ruleset with
  | Some actors =>
      resolved <- resolveBypassActors actors ;;
      ret (mkRuleset (ruleset_name ruleset) (Some resolved)
                     (ruleset_rest ruleset))
  | None => ret ruleset
  end.

Definition createBranchRuleset (ruleset : Ruleset) : M unit :=
  try_catch
    (processedRuleset <- processRuleset ruleset ;;
     request (repos_createOrgRuleset processedRuleset) ;;
     ret tt)
    (fun error =>
       throw (new_Error ("Failed to create branch ruleset: "
                         ++ message error)%string)).

Definition updateBranchRuleset (rulesetId : value) (ruleset : Ruleset) : M unit :=
  try_catch
    (processedRuleset <- processRuleset ruleset ;;
     request (repos_updateOrgRuleset rulesetId processedRuleset) ;;
     ret tt)
    (fun error =>
       throw (new_Error ("Failed to update branch ruleset: "
                         ++ message error)%string)).

Definition createTeam (teamConfig : Team) : M value :=
  try_catch
    (request (teams_create (team_name teamConfig)
                (or_default (description teamConfig) "")
                (or_default (privacy teamConfig) "closed")
                (or_default (notification_setting teamConfig)
                            "notifications_enabled")))
    (fun error =>
       throw (new_Error ("Failed to create team "
                         ++ quoted (team_name teamConfig) ++ ": "
                         ++ message error)%string)).

Definition updateTeam (teamSlug : value) (teamConfig : Team) : M unit :=
  try_catch
    (request (teams_updateInOrg teamSlug (team_name teamConfig)
                (or_default (description teamConfig) "")
                (or_default (privacy teamConfig) "closed")
                (or_default (notification_setting teamConfig)
                            "notifications_enabled")) ;;
     ret tt)
    (fun error =>
       throw (new_Error ("Failed to update team " ++ quoted (String_ teamSlug)
                         ++ ": " ++ message error)%string)).

(** [addTeamMember(teamSlug, username, role = 'member')] *)
Definition addTeamMember (teamSlug : value) (user : string)
           (role_ : option string) : M unit :=
  let r := match role_ with Some r => r | None => "member" end in
  try_catch
    (request (teams_addOrUpdateMembershipForUserInOrg teamSlug user r) ;;
     ret tt)
    (fun error =>
       throw (new_Error ("Failed to add member " ++ quoted user
                         ++ " to team " ++ quoted (String_ teamSlug) ++ ": "
                         ++ message error)%string)).

(** ** cli.js, [configure-org] *)

Definition nl : string := String (ascii_of_nat 10) EmptyString.

Definition is_update (c : Change) : bool :=
  match type c with update => true | _ => false end.
Definition is_add (c : Change) : bool :=
  match type c with add => true | _ => false end.
Definition is_remove (c : Change) : bool :=
  match type c with remove => true | _ => false end.

(** Body of the loop over [varChanges]. *)
Definition configure_variable (change : Change) : M unit :=
  if isEqual (currentValue change) (newValue change) then ret tt
  else
    confirmed <- confirmChange ("Variable: " ++ key change)%string
                   (currentValue change) (newValue change) ;;
    if confirmed then
      try_catch
        (setActionVariable (key change) (newValue change) ;;
         push_successful ("Variable: " ++ key change)%string)
        (fun error =>
           push_failed ("Variable: " ++ key change ++ " - "
                        ++ message error)%string)
    else push_skipped ("Variable: " ++ key change)%string.

Definition configure_variables (currentVariables desiredVariables : object)
  : M unit :=
  for_of (compare currentVariables desiredVariables) configure_variable.

(** [currentSecretNames.forEach(name => { currentSecrets[name] = '***' })] *)
Definition mask_secrets (currentSecretNames : list string) : object :=
  fold_left (fun o name => set o name (VStr "***")) currentSecretNames [].

(** Body of the loop over [secretChanges]. *)
Definition configure_secret (change : Change) : M unit :=
  if is_update change && isEqual (currentValue change) (newValue change)
  then ret tt
  else
    let displayValue :=
      if is_remove change then VStr "***" else VStr "*** (will be set)" in
    confirmed <- confirmChange ("Secret: " ++ key change)%string
                   (if is_add change then VStr "(not set)" else VStr "***")
                   displayValue ;;
    if confirmed then
      try_catch
        (if negb (is_remove change) then
           setActionSecret (key change) (newValue change) ;;
           push_successful ("Secret: " ++ key change)%string
         else
           push_skipped ("Secret: " ++ key change
                         ++ " (removal not automated)")%string)
        (fun error =>
           push_failed ("Secret: " ++ key change ++ " - "
                        ++ message error)%string)
    else push_skipped ("Secret: " ++ key change)%string.

Definition configure_secrets (currentSecretNames : list string)
           (desiredSecrets : object) : M unit :=
  for_of (compare (mask_secrets currentSecretNames) desiredSecrets)
         configure_secret.

(** Body of the loop over [privChanges]. *)
Definition configure_privilege (change : Change) : M unit :=
  if isEqual (currentValue change) (newValue change) then ret tt
  else
    confirmed <- confirmChange ("Privilege: " ++ key change)%string
                   (currentValue change) (newValue change) ;;
    if confirmed then
      try_catch
        (updateMemberPrivileges [(key change, newValue change)] ;;
         push_successful ("Privilege: " ++ key change)%string)
        (fun error =>
           push_failed ("Privilege: " ++ key change ++ " - "
                        ++ message error)%string)
    else push_skipped ("Privilege: " ++ key change)%string.

Definition configure_privileges (currentPrivileges desiredPrivileges : object)
  : M unit :=
  for_of (compare currentPrivileges desiredPrivileges) configure_privilege.

(** Body of the loop over [desiredRulesets]. *)
Definition configure_ruleset (currentRulesets : list value)
           (desiredRuleset : Ruleset) : M unit :=
  let name := ruleset_name desiredRuleset in
  match find (fun r => strict_eq (prop r "name") (VStr name)) currentRulesets with
  | Some existing =>
      confirmed <- confirm (nl ++ "Ruleset " ++ quoted name
                            ++ " exists. Update it?")%string ;;
      if confirmed then
        try_catch
          (updateBranchRuleset (prop existing "id") desiredRuleset ;;
           push_successful ("Ruleset: " ++ name)%string)
          (fun error =>
             push_failed ("Ruleset: " ++ name ++ " - " ++ message error)%string)
      else push_skipped ("Ruleset: " ++ name)%string
  | None =>
      confirmed <- confirm (nl ++ "Create new ruleset " ++ quoted name
                            ++ "?")%string ;;
      if confirmed then
        try_catch
          (createBranchRuleset desiredRuleset ;;
           push_successful ("Ruleset: " ++ name)%string)
          (fun error =>
             push_failed ("Ruleset: " ++ name ++ " - " ++ message error)%string)
      else push_skipped ("Ruleset: " ++ name)%string
  end.

Definition configure_rulesets (currentRulesets : list value)
           (desiredRulesets : list Ruleset) : M unit :=
  for_of desiredRulesets (configure_ruleset currentRulesets).

(** [desiredTeam.name.toLowerCase().replace(/\s+/g, '-')] *)
Definition team_slug_of (name : string) : string :=
  replace_space_runs "-" false (toLowerCase name).

(** Body of the loop over [desiredTeam.members]. *)
Definition upsert_member (teamSlug : value) (teamName : string)
           (member : Member) : M unit :=
  try_catch
    (addTeamMember teamSlug (username member) (role member))
    (fun error =>
       push_failed ("Team " ++ teamName ++ " - Member "
                    ++ username member)%string).

(** [if (desiredTeam.members && desiredTeam.members.length > 0) for ...] *)
Definition upsert_members (teamSlug : value) (desiredTeam : Team) : M unit :=
  match members desiredTeam with
  | Some ((_ :: _) as ms) =>
      for_of ms (upsert_member teamSlug (team_name desiredTeam))
  | _ => ret tt
  end.

(** Body of the loop over [desiredTeams]. *)
Definition configure_team (currentTeams : list value) (desiredTeam : Team)
  : M unit :=
  let name := team_name desiredTeam in
  match find (fun t => strict_eq (prop t "slug") (VStr (team_slug_of name)))
             currentTeams with
  | Some existing =>
      confirmed <- confirm (nl ++ "Team " ++ quoted name
                            ++ " exists. Update it?")%string ;;
      if confirmed then
        try_catch
          (updateTeam (prop existing "slug") desiredTeam ;;
           upsert_members (prop existing "slug") desiredTeam ;;
           push_successful ("Team: " ++ name)%string)
          (fun error =>
             push_failed ("Team: " ++ name ++ " - " ++ message error)%string)
      else push_skipped ("Team: " ++ name)%string
  | None =>
      confirmed <- confirm (nl ++ "Create new team " ++ quoted name
                            ++ "?")%string ;;
      if confirmed then
        try_catch
          (createdTeam <- createTeam desiredTeam ;;
           upsert_members (prop createdTeam "slug") desiredTeam ;;
           push_successful ("Team: " ++ name)%string)
          (fun error =>
             push_failed ("Team: " ++ name ++ " - " ++ message error)%string)
      else push_skipped ("Team: " ++ name)%string
  end.

Definition configure_teams (currentTeams : list value)
           (desiredTeams : list Team) : M unit :=
  for_of desiredTeams (configure_team currentTeams).

(** ** cli.js, [restore-org] *)

(** What a backup holds ([backupData]), which is also what the getters of
    the service return for the live organisation. *)
Record Settings : Type := mkSettings {
  actionVariables : object;
  actionSecrets : list string;
  memberPrivileges : object;
  branchRulesets : list value;
  teams : list value
}.

Definition restore_variable (change : Change) : M unit :=
  confirmed <- confirmChange ("Variable: " ++ key change)%string
                 (currentValue change) (newValue change) ;;
  if confirmed then
    try_catch
      (setActionVariable (key change) (newValue change) ;;
       push_successful ("Variable: " ++ key change)%string)
      (fun error =>
         push_failed ("Variable: " ++ key change ++ " - "
                      ++ message error)%string)
  else push_skipped ("Variable: " ++ key change)%string.

Definition restore_variables (currentVariables backupVariables : object)
  : M unit :=
  for_of (compare currentVariables backupVariables) restore_variable.

(** Body of the loop over [backupSecretNames]. *)
Definition restore_secret (currentSecretsFile : object) (secretName : string)
  : M unit :=
  if truthy (get currentSecretsFile secretName) then
    confirmed <- confirm (nl ++ "Restore secret: " ++ secretName ++ "?")%string ;;
    if confirmed then
      try_catch
        (setActionSecret secretName (get currentSecretsFile secretName) ;;
         push_successful ("Secret: " ++ secretName)%string)
        (fun error =>
           push_failed ("Secret: " ++ secretName ++ " - "
                        ++ message error)%string)
    else push_skipped ("Secret: " ++ secretName)%string
  else push_skipped ("Secret: " ++ secretName ++ " (not in env file)")%string.

(** The secrets step; [secretsFile] is what [loadSecretsFromFile] returns
    or throws on the current [action-secrets.env]. *)
Definition restore_secrets (secretsFile : Error + object)
           (backupSecretNames : list string) : M unit :=
  try_catch
    (currentSecretsFile <- (match secretsFile with
                            | inl e => throw e
                            | inr o => ret o
                            end) ;;
     for_of backupSecretNames (restore_secret currentSecretsFile))
    (fun error => ret tt).

Definition restore_privilege (change : Change) : M unit :=
  confirmed <- confirmChange ("Privilege: " ++ key change)%string
                 (currentValue change) (newValue change) ;;
  if confirmed then
    try_catch
      (updateMemberPrivileges [(key change, newValue change)] ;;
       push_successful ("Privilege: " ++ key change)%string)
      (fun error =>
         push_failed ("Privilege: " ++ key change ++ " - "
                      ++ message error)%string)
  else push_skipped ("Privilege: " ++ key change)%string.

Definition restore_privileges (currentPrivileges backupPrivileges : object)
  : M unit :=
  for_of (compare currentPrivileges backupPrivileges) restore_privilege.

(** The action of [restore-org] from the point where the backup has been
    read and the live settings fetched, up to the summary. *)
Definition restore_org (backupSettings live : Settings)
           (secretsFile : Error + object) : M unit :=
  restore_variables (actionVariables live) (actionVariables backupSettings) ;;
  restore_secrets secretsFile (actionSecrets backupSettings) ;;
  restore_privileges (memberPrivileges live) (memberPrivileges backupSettings).

End WithEnv.

End Run.
Export Run.

(** The [results] object and the state a run starts from. *)
Definition no_results : Results := mkResults [] [] [].
Definition start : World := mkWorld [] [] no_results.


(* ================================================================== *)
(** * settings-diff.js: display helpers *)
(* ================================================================== *)

Module SettingsDiffDisplay.

Local Open Scope string_scope.

(** [lines.join(sep)] *)
Fixpoint join (sep : string) (lines : list string) : string :=
  match lines with
  | [] => ""
  | [l] => l
  | l :: rest => l ++ sep ++ join sep rest
  end.

(** The lines [format] pushes for one change; [stringify] stands for
    [JSON.stringify] as a template literal prints its result. *)
Definition change_lines (stringify : value -> string) (change : Change)
  : list string :=
  match type change with
  | add => ["+ " ++ key change ++ ": " ++ stringify (newValue change)]
  | update =>
      ["~ " ++ key change ++ ":";
       "  - " ++ stringify (currentValue change);
       "  + " ++ stringify (newValue change)]
  | remove => ["- " ++ key change ++ ": " ++ stringify (currentValue change)]
  end.

(** [SettingsDiff.format(changes)] *)
Definition format (stringify : value -> string) (changes : list Change)
  : string :=
  if Nat.eqb (List.length changes) 0 then "No changes detected"
  else join (String (ascii_of_nat 10) "")
            (flat_map (change_lines stringify) changes).

(** [SettingsDiff.groupChanges(allChanges)]: [allChanges] is the list of
    the entries of the object, a category without a list of changes ([null]
    or [undefined]) being [None]. *)
Fixpoint groupChanges (allChanges : list (string * option (list Change)))
  : list (string * list Change) :=
  match allChanges with
  | [] => []
  | (category, changes) :: rest =>
      match changes with
      | Some ((_ :: _) as l) => (category, l) :: groupChanges rest
      | _ => groupChanges rest
      end
  end.

End SettingsDiffDisplay.

(* ================================================================== *)
(** * backup.js: reading and listing *)
(* ================================================================== *)

Module BackupListing.

Import BackupManager.

Local Open Scope string_scope.

(** An error of the file system. *)
Record FsError : Type := mkFsError {
  code : string;
  fs_message : string
}.

(** [s.endsWith(suffix)] *)
Fixpoint endsWith (suffix s : string) : bool :=
  if String.eqb s suffix then true
  else match s with
       | EmptyString => false
       | String _ rest => endsWith suffix rest
       end.

(** [names.sort()]: ascending in the order of the code units. *)
Fixpoint insert (x : string) (l : list string) : list string :=
  match l with
  | [] => [x]
  | y :: rest => if String.leb x y then x :: l else y :: insert x rest
  end.

Fixpoint sort (l : list string) : list string :=
  match l with
  | [] => []
  | x :: rest => insert x (sort rest)
  end.

Definition is_backup_name (f : string) : bool :=
  String.prefix "backup-" f && endsWith ".json" f.

(** [listBackups()], [readdir] being what [fs.readdir(this.backupDir)]
    returns or throws. *)
Definition listBackups (backupDir : string) (readdir : FsError + list string)
  : FsError + list string :=
  match readdir with
  | inr files =>
      inr (rev (sort (map (path_join backupDir)
                          (filter is_backup_name files))))
  | inl error =>
      if String.eqb (code error) "ENOENT" then inr [] else inl error
  end.

End BackupListing.

(* ================================================================== *)
(** * branch.service.js *)
(* ================================================================== *)

Module BranchService.

Local Open Scope string_scope.

(** The requests of [createBranches] (owner and repository left out). *)
Inductive GitCall : Type :=
| repos_get
| git_getRef (ref : string)
| git_createRef (ref : string) (sha : value).

Record BranchResults : Type := mkBranchResults {
  created : list string;
  branch_failed : list string;
  existing : list string
}.

(** [BranchService.getKmomBranches(mode)] *)
Definition getKmomBranches (mode : string) : list string :=
  if String.eqb mode "kmom03-only" then ["bth/submit/kmom03"]
  else ["bth/submit/kmom03"; "bth/submit/kmom06"; "bth/submit/kmom10"].

Section WithPlatform.

(** The platform's answer to a request. *)
Variable platform : GitCall -> Error + value.

(** The loop over [branches]: the results and the requests sent, oldest
    first. *)
Fixpoint createEach (sha : value) (branches : list string)
         (results : BranchResults) (log : list GitCall)
  : BranchResults * list GitCall :=
  match branches with
  | [] => (results, log)
  | branch :: rest =>
      let c := git_createRef ("refs/heads/" ++ branch) sha in
      let log' := List.app log [c] in
      match platform c with
      | inr _ =>
          createEach sha rest
            (mkBranchResults (List.app (created results) [branch])
               (branch_failed results) (existing results)) log'
      | inl error =>
          if status_is error 422
          then createEach sha rest
                 (mkBranchResults (created results) (branch_failed results)
                    (List.app (existing results) [branch])) log'
          else createEach sha rest
                 (mkBranchResults (created results)
                    (List.app (branch_failed results) [branch])
                    (existing results)) log'
      end
  end.

(** [createBranches(repoName, branches)]: what it returns or throws, and
    the requests it sent.  Reading [sha] of a missing [ref.object] throws a
    [TypeError]. *)
Definition createBranches (branches : list string)
  : (Error + BranchResults) * list GitCall :=
  match platform repos_get with
  | inl error => (inl error, [repos_get])
  | inr repo =>
      let defaultBranch := prop repo "default_branch" in
      let getRef := git_getRef ("heads/" ++ String_ defaultBranch) in
      match platform getRef with
      | inl error => (inl error, [repos_get; getRef])
      | inr ref =>
          if is_nullish (prop ref "object")
          then (inl (new_Error
                       ("Cannot read properties of "
                        ++ String_ (prop ref "object")
                        ++ " (reading 'sha')")),
                [repos_get; getRef])
          else
            let sha := prop (prop ref "object") "sha" in
            let (results, log) :=
              createEach sha branches (mkBranchResults [] [] [])
                         [repos_get; getRef] in
            (inr results, log)
      end
  end.

End WithPlatform.

End BranchService.

(* ================================================================== *)
(** * organization.service.js: labels *)
(* ================================================================== *)

Module Labels.

Local Open Scope string_scope.

Record Label : Type := mkLabel {
  label_name : string;
  color : string;
  label_description : option string
}.

(** The requests about labels (owner left out). *)
Inductive LabelCall : Type :=
| issues_listLabelsForRepo (repo : string)
| issues_createLabel (repo name color_ description_ : string)
| issues_updateLabel (repo name color_ description_ : string).

Record LabelResults : Type := mkLabelResults {
  labels_successful : list string;
  labels_failed : list string
}.

Section WithPlatform.

(** The platform's answer to a request; the [data] of a listing is the
    array of the labels of the repository. *)
Variable platform : LabelCall -> Error + list value.

(** State: the requests sent, oldest first, and the results. *)
Definition State : Type := (list LabelCall * LabelResults)%type.

Definition send (c : LabelCall) (s : State) : (Error + list value) * State :=
  (platform c, (List.app (fst s) [c], snd s)).

(** [getRepoLabels(repoName)] *)
Definition getRepoLabels (repoName : string) (s : State)
  : (Error + list value) * State :=
  match send (issues_listLabelsForRepo repoName) s with
  | (inr data, s') => (inr data, s')
  | (inl error, s') =>
      if status_is error 404 then (inr [], s')
      else (inl (new_Error ("Failed to get labels from " ++ repoName ++ ": "
                            ++ message error)), s')
  end.

(** [createRepoLabel(repoName, label)] *)
Definition createRepoLabel (repoName : string) (label : Label) (s : State)
  : (Error + unit) * State :=
  match send (issues_createLabel repoName (label_name label) (color label)
                (or_default (label_description label) "")) s with
  | (inr _, s') => (inr tt, s')
  | (inl error, s') =>
      (inl (new_Error ("Failed to create label " ++ quoted (label_name label)
                       ++ " in " ++ repoName ++ ": " ++ message error)), s')
  end.

(** [updateRepoLabel(repoName, label)] *)
Definition updateRepoLabel (repoName : string) (label : Label) (s : State)
  : (Error + unit) * State :=
  match send (issues_updateLabel repoName (label_name label) (color label)
                (or_default (label_description label) "")) s with
  | (inr _, s') => (inr tt, s')
  | (inl error, s') =>
      (inl (new_Error ("Failed to update label " ++ quoted (label_name label)
                       ++ " in " ++ repoName ++ ": " ++ message error)), s')
  end.

Definition push_label_failed (entry : string) (s : State) : State :=
  (fst s, mkLabelResults (labels_successful (snd s))
                         (List.app (labels_failed (snd s)) [entry])).

Definition push_label_successful (entry : string) (s : State) : State :=
  (fst s, mkLabelResults (List.app (labels_successful (snd s)) [entry])
                         (labels_failed (snd s))).

(** [existingLabelNames.includes(label.name)] *)
Definition label_exists (existingLabels : list value) (label : Label) : bool :=
  existsb (fun l => strict_eq (prop l "name") (VStr (label_name label)))
          existingLabels.

(** Body of the loop over [labels]. *)
Definition applyLabel (repoName : string) (existingLabels : list value)
           (label : Label) (s : State) : State :=
  let (r, s') :=
    if label_exists existingLabels label
    then updateRepoLabel repoName label s
    else createRepoLabel repoName label s in
  match r with
  | inr _ => s'
  | inl error =>
      push_label_failed
        (repoName ++ " - " ++ label_name label ++ ": " ++ message error) s'
  end.

(** Body of the loop over [repos]. *)
Definition applyToRepo (labels : list Label) (repoName : string) (s : State)
  : State :=
  match getRepoLabels repoName s with
  | (inr existingLabels, s') =>
      push_label_successful repoName
        (fold_left (fun st label => applyLabel repoName existingLabels label st)
                   labels s')
  | (inl error, s') =>
      push_label_failed (repoName ++ ": " ++ message error) s'
  end.

(** [applyLabelsToRepos(labels, repos)], [repos] by their names: the
    requests sent and the results returned. *)
Definition applyLabelsToRepos (labels : list Label) (repos : list string)
  : State :=
  fold_left (fun st repo => applyToRepo labels repo st) repos
            ([], mkLabelResults [] []).

End WithPlatform.

End Labels.

(* ================================================================== *)
(** * github-client.js *)
(* ================================================================== *)

Module GithubClient.

Local Open Scope string_scope.

(** [process.env]: a variable that is not set reads as [None]. *)
Definition ProcessEnv : Type := string -> option string.

Record Credentials : Type := mkCredentials {
  adminToken : string;
  studentToken : string;
  organizationName : string
}.

(** [!x] on what an environment variable reads as. *)
Definition missing (x : option string) : bool :=
  match x with
  | None => true
  | Some s => String.eqb s ""
  end.

Definition text (x : option string) : string :=
  match x with
  | Some s => s
  | None => ""
  end.

(** [loadCredentials()] *)
Definition loadCredentials (env : ProcessEnv) : Error + Credentials :=
  let adminToken := env "GITHUB_ADMIN_TOKEN" in
  let studentToken := env "GITHUB_STUDENT_TOKEN" in
  let orgName := env "GITHUB_ORG_NAME" in
  if missing adminToken
  then inl (new_Error "Missing GITHUB_ADMIN_TOKEN environment variable")
  else if missing studentToken
  then inl (new_Error "Missing GITHUB_STUDENT_TOKEN environment variable")
  else if missing orgName
  then inl (new_Error "Missing GITHUB_ORG_NAME environment variable")
  else inr (mkCredentials (text adminToken) (text studentToken) (text orgName)).

(** The options [getGithubClient] builds the client from. *)
Record ClientOptions : Type := mkClientOptions {
  auth : string;
  userAgent : string;
  baseUrl : string
}.

(** [getGithubClient(role)] *)
Definition getGithubClient (env : ProcessEnv) (role : string)
  : Error + ClientOptions :=
  match loadCredentials env with
  | inl error => inl error
  | inr credentials =>
      if String.eqb role "admin"
      then inr (mkClientOptions (adminToken credentials)
                  "bth-algo-manager v1.0.0" "https://api.github.com")
      else if String.eqb role "student"
      then inr (mkClientOptions (studentToken credentials)
                  "bth-algo-manager v1.0.0" "https://api.github.com")
      else inl (new_Error ("Invalid role: " ++ role
                           ++ ". Must be 'admin' or 'student'"))
  end.

(** [getOrganizationName()] *)
Definition getOrganizationName (env : ProcessEnv) : Error + string :=
  match loadCredentials env with
  | inl error => inl error
  | inr credentials => inr (organizationName credentials)
  end.

End GithubClient.
(* ================================================================== *)
(** * Vocabulary of the statements *)
(* ================================================================== *)

Unset Implicit Arguments.

Module Vocabulary.

Local Open Scope list_scope.

Definition is_null (v : value) : bool :=
  match v with VNull => true | _ => false end.

Definition is_undefined (v : value) : bool :=
  match v with VUndefined => true | _ => false end.

(** The values a map holds are defined: no property is set to
    [undefined]. *)
Definition defined_values (o : object) : Prop :=
  Forall (fun kv => snd kv <> VUndefined) o.

(** A value is well formed when no object in it has two properties of the
    same name. *)
Fixpoint well_formed (v : value) : Prop :=
  match v with
  | VArr items =>
      (fix all (l : list value) : Prop :=
         match l with
         | [] => True
         | x :: rest => well_formed x /\ all rest
         end) items
  | VObj props =>
      NoDup (keys props)
      /\ (fix all (l : list (string * value)) : Prop :=
            match l with
            | [] => True
            | (_, x) :: rest => well_formed x /\ all rest
            end) props
  | _ => True
  end.

(** The changes of a list that are about key [k]. *)
Definition changes_for (k : string) (l : list Change) : list Change :=
  filter (fun c => String.eqb (key c) k) l.

(** The classification of a key by presence. *)
Definition classify (current desired : object) (k : string) : ChangeType :=
  if negb (has current k) then add
  else if negb (has desired k) then remove
  else update.


(** Two captures within one second: 10:30:45.123 and 10:30:45.456 on
    2024-01-15. *)
Definition capture1 : BackupManager.Date :=
  BackupManager.mkDate 2024 1 15 10 30 45 123.
Definition capture2 : BackupManager.Date :=
  BackupManager.mkDate 2024 1 15 10 30 45 456.

(** Two instants are within the same second. *)
Definition same_second (d1 d2 : BackupManager.Date) : Prop :=
  BackupManager.year d1 = BackupManager.year d2
  /\ BackupManager.month d1 = BackupManager.month d2
  /\ BackupManager.day d1 = BackupManager.day d2
  /\ BackupManager.hours d1 = BackupManager.hours d2
  /\ BackupManager.minutes d1 = BackupManager.minutes d2
  /\ BackupManager.seconds d1 = BackupManager.seconds d2.

(** The platform rejects a request. *)
Definition rejected (env : Env) (c : call) : bool :=
  match octokit env c with
  | inl _ => true
  | inr _ => false
  end.

(** ** Rulesets *)

Definition declared_actors (r : Ruleset) : list Actor :=
  match bypass_actors r with
  | Some actors => actors
  | None => []
  end.

(** The actor names a team and the lookup of that name is rejected. *)
Definition lookup_fails (env : Env) (a : Actor) : bool :=
  match team_reference a with
  | Some t => rejected env (teams_getByName t)
  | None => false
  end.

Definition is_team_lookup (c : call) : bool :=
  match c with
  | teams_getByName _ => true
  | _ => false
  end.

(** The message of the error [resolveBypassActors] throws for team [t]
    when the lookup was rejected with error [e]. *)
Definition unresolved_message (t : string) (e : Error) : string :=
  "Failed to resolve team " ++ quoted t ++ ": Failed to get team ID for "
  ++ quoted t ++ ": " ++ message e.

Definition existing_ruleset (currentRulesets : list value) (r : Ruleset)
  : option value :=
  find (fun x => strict_eq (prop x "name") (VStr (ruleset_name r)))
       currentRulesets.

(** The service method the loop calls for [r]. *)
Definition ruleset_verb (currentRulesets : list value) (r : Ruleset) : string :=
  match existing_ruleset currentRulesets r with
  | Some _ => "update"
  | None => "create"
  end.

(** ** Teams *)

Definition declared_members (t : Team) : list Member :=
  match members t with
  | Some ms => ms
  | None => []
  end.

Definition member_role (m : Member) : string :=
  match role m with
  | Some r => r
  | None => "member"
  end.

(** The request that upserts member [m] into the team of slug [slug]. *)
Definition member_request (slug : value) (m : Member) : call :=
  teams_addOrUpdateMembershipForUserInOrg slug (username m) (member_role m).

(** The entry of the failed list for member [m] of team [t]. *)
Definition member_failure (t : Team) (m : Member) : string :=
  "Team " ++ team_name t ++ " - Member " ++ username m.

Definition existing_team (currentTeams : list value) (t : Team) : option value :=
  find (fun x => strict_eq (prop x "slug") (VStr (team_slug_of (team_name t))))
       currentTeams.

(** The team-level request of the loop for [t]: an update when a team of
    the expected slug exists, a creation otherwise. *)
Definition team_request (currentTeams : list value) (t : Team) : call :=
  match existing_team currentTeams t with
  | Some existing =>
      teams_updateInOrg (prop existing "slug") (team_name t)
        (or_default (description t) "") (or_default (privacy t) "closed")
        (or_default (notification_setting t) "notifications_enabled")
  | None =>
      teams_create (team_name t)
        (or_default (description t) "") (or_default (privacy t) "closed")
        (or_default (notification_setting t) "notifications_enabled")
  end.

(** The slug the members are upserted under, [data] being the answer to
    the team-level request. *)
Definition members_slug (currentTeams : list value) (t : Team) (data : value)
  : value :=
  match existing_team currentTeams t with
  | Some existing => prop existing "slug"
  | None => prop data "slug"
  end.

(** ** Concrete runs *)

(** A platform that accepts every request with an empty answer. *)
Definition accepting : call -> Error + value := fun _ => inr (VObj []).

Definition no_stringify : value -> string := fun _ => "".
Definition no_seal : value -> value -> string := fun _ _ => "sealed".

(** The user answers [y] to every question; the user answers [n]. *)
Definition env_yes : Env := mkEnv accepting (fun _ => "y") no_stringify no_seal.
Definition env_no : Env := mkEnv accepting (fun _ => "n") no_stringify no_seal.

(** A secret the organisation has and the settings file no longer
    declares. *)
Definition removal_of_old_token : Change :=
  mkChange "OLD_TOKEN" remove (VStr "***") VUndefined.

(** A backup of variables [{A: 1, B: 2}] and a live organisation whose
    variables are [{A: 5}]. *)
Definition backup_a1b2 : Settings :=
  mkSettings [("A", VNum 1); ("B", VNum 2)] [] [] [] [].
Definition live_a5 : Settings := mkSettings [("A", VNum 5)] [] [] [] [].

(** A backup that holds a ruleset and a team, and a live organisation that
    has lost both. *)
Definition backup_ruleset_team : Settings :=
  mkSettings [] [] []
    [VObj [("id", VNum 7); ("name", VStr "protect-main")]]
    [VObj [("slug", VStr "staff"); ("name", VStr "Staff")]].
Definition live_empty : Settings := mkSettings [] [] [] [] [].
Definition declared_protect_main : Ruleset := mkRuleset "protect-main" None [].

(** A backup and a live organisation that both have the secret [S]. *)
Definition backup_secret : Settings := mkSettings [] ["S"] [] [] [].
Definition live_secret : Settings := mkSettings [] ["S"] [] [] [].

(** A team of two members on a platform that rejects the upsert of
    [bob] and accepts everything else. *)
Definition alice : Member := mkMember "alice" (Some "maintainer").
Definition bob : Member := mkMember "bob" None.
Definition carol : Member := mkMember "carol" None.
Definition staff : Team :=
  mkTeam "Course Staff" None None None (Some [alice; bob; carol]).

Definition rejecting_bob : call -> Error + value :=
  fun c =>
    match c with
    | teams_addOrUpdateMembershipForUserInOrg _ "bob" _ =>
        inl (mkError (Some 404%Z) "Not Found")
    | teams_create _ _ _ _ => inr (VObj [("slug", VStr "course-staff")])
    | _ => inr (VObj [])
    end.

Definition env_rejecting_bob : Env :=
  mkEnv rejecting_bob (fun _ => "y") no_stringify no_seal.

(** A ruleset whose second bypass actor names a team the platform does not
    know, followed by a ruleset without bypass actors. *)
Definition known_team : Actor := mkActor "Team" (Some "staff") VUndefined [].
Definition ghost_team : Actor := mkActor "Team" (Some "ghosts") VUndefined [].
Definition guarded : Ruleset :=
  mkRuleset "guarded" (Some [known_team; ghost_team]) [].
Definition plain : Ruleset := mkRuleset "plain" None [].

Definition without_ghosts : call -> Error + value :=
  fun c =>
    match c with
    | teams_getByName "ghosts" => inl (mkError (Some 404%Z) "Not Found")
    | teams_getByName _ => inr (VObj [("id", VNum 42)])
    | _ => inr (VObj [])
    end.

Definition env_without_ghosts : Env :=
  mkEnv without_ghosts (fun _ => "y") no_stringify no_seal.

(** Live privileges in which the platform left one flag unset. *)
Definition privileges_with_unset_flag : object :=
  [("members_can_create_teams", VUndefined)].

(** ** More on the diff engine *)

(** Arrays and plain objects: the values [isEqual] compares key by key. *)
Definition is_composite (v : value) : bool :=
  match v with
  | VArr _ | VObj _ => true
  | _ => false
  end.

(** What the loop of [isEqual] checks of one entry of [a] against the
    entries of [b]. *)
Definition entry_matches (bEntries : object) (kx : string * value) : bool :=
  includes (fst kx) (keys bEntries)
  && isEqual (snd kx) (get bEntries (fst kx)).

(** The changes a category brings to [groupChanges]. *)
Definition changes_of (c : option (list Change)) : list Change :=
  match c with
  | Some l => l
  | None => []
  end.

(** ** More on the prompt *)

(** A string of white space only. *)
Fixpoint all_space (s : string) : bool :=
  match s with
  | EmptyString => true
  | String c rest => is_space c && all_space rest
  end.

(** ** More on the backups *)

(** The fields of an instant are in the ranges [toISOString] prints in
    fixed width. *)
Definition valid (d : BackupManager.Date) : Prop :=
  (BackupManager.year d < 100 * 100
   /\ BackupManager.month d < 100 /\ BackupManager.day d < 100
   /\ BackupManager.hours d < 100 /\ BackupManager.minutes d < 100
   /\ BackupManager.seconds d < 100
   /\ BackupManager.milliseconds d < 1000)%nat.

(** The order of two instants in time, field by field. *)
Definition then_compare (c : comparison) (rest : comparison) : comparison :=
  match c with
  | Eq => rest
  | _ => c
  end.

Definition date_compare (d1 d2 : BackupManager.Date) : comparison :=
  then_compare (Nat.compare (BackupManager.year d1) (BackupManager.year d2))
  (then_compare (Nat.compare (BackupManager.month d1) (BackupManager.month d2))
  (then_compare (Nat.compare (BackupManager.day d1) (BackupManager.day d2))
  (then_compare (Nat.compare (BackupManager.hours d1) (BackupManager.hours d2))
  (then_compare (Nat.compare (BackupManager.minutes d1)
                             (BackupManager.minutes d2))
  (then_compare (Nat.compare (BackupManager.seconds d1)
                             (BackupManager.seconds d2))
     (Nat.compare (BackupManager.milliseconds d1)
                  (BackupManager.milliseconds d2))))))).

(** A list of names in ascending order. *)
Definition ascending : list string -> Prop :=
  StronglySorted (fun a b => String.leb a b = true).

(** ** More on the services *)

(** The text [setActionVariable] sends for a value. *)
Definition stringValue (env : Env) (v : value) : string :=
  if String.eqb (typeof v) "object" then JSON_stringify env v else String_ v.

(** The last request of a list was rejected, and with what error. *)
Definition last_rejection (env : Env) (requests : list call) : option Error :=
  match rev requests with
  | [] => None
  | c :: _ => match octokit env c with
              | inl e => Some e
              | inr _ => None
              end
  end.

(** The requests [setActionVariable] sends: the existence check, then the
    update when the check was accepted, then the creation when the last of
    these was answered 404. *)
Definition variable_requests (env : Env) (name : string) (v : value)
  : list call :=
  let sv := stringValue env v in
  match octokit env (actions_getOrgVariable name) with
  | inr _ =>
      [actions_getOrgVariable name; actions_updateOrgVariable name sv]
      ++ match octokit env (actions_updateOrgVariable name sv) with
         | inl e => if status_is e 404
                    then [actions_createOrgVariable name sv "all"] else []
         | inr _ => []
         end
  | inl e =>
      actions_getOrgVariable name
      :: (if status_is e 404
          then [actions_createOrgVariable name sv "all"] else [])
  end.

(** The requests [setActionSecret] sends. *)
Definition secret_requests (env : Env) (name : string) (v : value)
  : list call :=
  actions_getOrgPublicKey
  :: match octokit env actions_getOrgPublicKey with
     | inr publicKey =>
         [actions_createOrUpdateOrgSecret name
            (crypto_box_seal env v (prop publicKey "key"))
            (prop publicKey "key_id") "all"]
     | inl _ => []
     end.

(** What a service method returns after its [requests]: the wrapped error
    of the last request when it was rejected. *)
Definition outcome (env : Env) (requests : list call) (wrap : string)
  : Error + unit :=
  match last_rejection env requests with
  | Some e => inl (new_Error (wrap ++ message e))
  | None => inr tt
  end.

(** The state after [requests] have been sent. *)
Definition after (w : World) (requests : list call) : World :=
  mkWorld (asked w) (List.app (sent w) requests) (results w).

(** The lookups [resolveBypassActors] sends for a list of actors, and the
    actors it returns when all of them are accepted. *)
Definition actor_lookups (actors : list Actor) : list call :=
  flat_map (fun a => match team_reference a with
                     | Some t => [teams_getByName t]
                     | None => []
                     end) actors.

Definition resolved (env : Env) (a : Actor) : Actor :=
  match team_reference a with
  | Some t =>
      match octokit env (teams_getByName t) with
      | inr data => mkActor (actor_type a) None (prop data "id") (actor_rest a)
      | inl _ => a
      end
  | None => a
  end.

(** The ruleset the service sends for a declared ruleset. *)
Definition resolved_ruleset (env : Env) (r : Ruleset) : Ruleset :=
  match bypass_actors r with
  | Some actors =>
      mkRuleset (ruleset_name r) (Some (map (resolved env) actors))
                (ruleset_rest r)
  | None => r
  end.

Definition is_ruleset_write (c : call) : bool :=
  match c with
  | repos_createOrgRuleset _ | repos_updateOrgRuleset _ _ => true
  | _ => false
  end.

(** ** More on the loops *)

(** The user declines every question. *)
Definition declines_all (env : Env) : Prop :=
  forall n, PromptManager.confirm (stdin env n) = false.

(** From [w] to [w'] nothing was sent and nothing was recorded as done or
    as failed. *)
Definition untouched (w w' : World) : Prop :=
  sent w' = sent w
  /\ successful (results w') = successful (results w)
  /\ failed (results w') = failed (results w).

(** The number of outcomes recorded. *)
Definition outcomes (w : World) : nat :=
  List.length (successful (results w)) + List.length (failed (results w))
  + List.length (skipped (results w)).

(** From [w] to [w'], [n] questions were asked and as many outcomes
    recorded. *)
Definition accounted (n : nat) (w w' : World) : Prop :=
  List.length (asked w') = List.length (asked w) + n
  /\ outcomes w' = outcomes w + n.

(** The changes the loops of configuration ask about. *)
Definition differs (c : Change) : bool :=
  negb (isEqual (currentValue c) (newValue c)).

Definition secret_asked (c : Change) : bool :=
  negb (is_update c && isEqual (currentValue c) (newValue c)).

(** A computation that only sends requests: it asks nothing and records
    nothing. *)
Definition only_sends {A : Type} (m : M A) : Prop :=
  forall w, asked (snd (m w)) = asked w /\ results (snd (m w)) = results w.

(** ** Branches and labels *)

(** How the platform answers the creation of a branch. *)
Definition branch_request (sha : value) (branch : string)
  : BranchService.GitCall :=
  BranchService.git_createRef ("refs/heads/" ++ branch)%string sha.

Definition branch_created (platform : BranchService.GitCall -> Error + value)
           (sha : value) (branch : string) : bool :=
  match platform (branch_request sha branch) with
  | inr _ => true
  | inl _ => false
  end.

Definition branch_exists (platform : BranchService.GitCall -> Error + value)
           (sha : value) (branch : string) : bool :=
  match platform (branch_request sha branch) with
  | inr _ => false
  | inl e => status_is e 422
  end.

Definition branch_fails (platform : BranchService.GitCall -> Error + value)
           (sha : value) (branch : string) : bool :=
  match platform (branch_request sha branch) with
  | inr _ => false
  | inl e => negb (status_is e 422)
  end.

(** The labels of a repository can be listed: the listing is accepted, or
    answered 404, which counts as no label. *)
Definition listable (platform : Labels.LabelCall -> Error + list value)
           (repo : string) : bool :=
  match platform (Labels.issues_listLabelsForRepo repo) with
  | inr _ => true
  | inl e => status_is e 404
  end.

Definition listed (platform : Labels.LabelCall -> Error + list value)
           (repo : string) : list value :=
  match platform (Labels.issues_listLabelsForRepo repo) with
  | inr data => data
  | inl _ => []
  end.

(** The request [applyLabelsToRepos] sends for a label of a repository
    whose labels are [existingLabels]. *)
Definition label_request (repo : string) (existingLabels : list value)
           (label : Labels.Label) : Labels.LabelCall :=
  if Labels.label_exists existingLabels label
  then Labels.issues_updateLabel repo (Labels.label_name label)
         (Labels.color label) (or_default (Labels.label_description label) "")
  else Labels.issues_createLabel repo (Labels.label_name label)
         (Labels.color label) (or_default (Labels.label_description label) "").

(** The entries of the failed list for a repository. *)
Definition label_failure (platform : Labels.LabelCall -> Error + list value)
           (repo : string) (existingLabels : list value)
           (label : Labels.Label) : list string :=
  match platform (label_request repo existingLabels label) with
  | inr _ => []
  | inl e =>
      [(repo ++ " - " ++ Labels.label_name label ++ ": Failed to "
        ++ (if Labels.label_exists existingLabels label
            then "update" else "create")
        ++ " label " ++ quoted (Labels.label_name label) ++ " in " ++ repo
        ++ ": " ++ message e)%string]
  end.

Definition repo_requests (platform : Labels.LabelCall -> Error + list value)
           (labels : list Labels.Label) (repo : string)
  : list Labels.LabelCall :=
  Labels.issues_listLabelsForRepo repo
  :: (if listable platform repo
      then map (label_request repo (listed platform repo)) labels
      else []).

Definition repo_failures (platform : Labels.LabelCall -> Error + list value)
           (labels : list Labels.Label) (repo : string) : list string :=
  match platform (Labels.issues_listLabelsForRepo repo) with
  | inl e =>
      if status_is e 404
      then flat_map (label_failure platform repo []) labels
      else [(repo ++ ": Failed to get labels from " ++ repo ++ ": "
             ++ message e)%string]
  | inr data => flat_map (label_failure platform repo data) labels
  end.

(** ** Credentials and slugs *)

(** The three variables are set, and not to the empty text. *)
Definition complete (env : GithubClient.ProcessEnv) : Prop :=
  GithubClient.missing (env "GITHUB_ADMIN_TOKEN"%string) = false
  /\ GithubClient.missing (env "GITHUB_STUDENT_TOKEN"%string) = false
  /\ GithubClient.missing (env "GITHUB_ORG_NAME"%string) = false.

(** An environment with the two tokens and no organisation name, and one
    with the three variables. *)
Definition env_without_org : GithubClient.ProcessEnv :=
  fun name =>
    if String.eqb name "GITHUB_ADMIN_TOKEN" then Some "ghp_admin"%string
    else if String.eqb name "GITHUB_STUDENT_TOKEN" then Some "ghp_student"%string
    else None.

Definition env_complete : GithubClient.ProcessEnv :=
  fun name =>
    if String.eqb name "GITHUB_ADMIN_TOKEN" then Some "ghp_admin"%string
    else if String.eqb name "GITHUB_STUDENT_TOKEN" then Some "ghp_student"%string
    else if String.eqb name "GITHUB_ORG_NAME" then Some "bth-algo"%string
    else None.

(** A string without white space. *)
Fixpoint no_space (s : string) : bool :=
  match s with
  | EmptyString => true
  | String c rest => negb (is_space c) && no_space rest
  end.

(** A platform on which the repository has the default branch [main], the
    branch of kmom03 exists already and the creation of that of kmom10 is
    refused. *)
Definition git_platform : BranchService.GitCall -> Error + value :=
  fun c =>
    match c with
    | BranchService.repos_get => inr (VObj [("default_branch", VStr "main")])
    | BranchService.git_getRef _ =>
        inr (VObj [("object", VObj [("sha", VStr "abc123")])])
    | BranchService.git_createRef "refs/heads/bth/submit/kmom03" _ =>
        inl (mkError (Some 422%Z) "Reference already exists")
    | BranchService.git_createRef "refs/heads/bth/submit/kmom10" _ =>
        inl (mkError (Some 403%Z) "Forbidden")
    | BranchService.git_createRef _ _ => inr (VObj [])
    end.

(** A platform without the repository. *)
Definition git_platform_without_repo : BranchService.GitCall -> Error + value :=
  fun _ => inl (mkError (Some 404%Z) "Not Found").

(** The entry of the failed list for a team whose team-level request was
    rejected with error [e]. *)
Definition team_failure (currentTeams : list value) (t : Team) (e : Error)
  : string :=
  match existing_team currentTeams t with
  | Some existing =>
      "Team: " ++ team_name t ++ " - Failed to update team "
      ++ quoted (String_ (prop existing "slug")) ++ ": " ++ message e
  | None =>
      "Team: " ++ team_name t ++ " - Failed to create team "
      ++ quoted (team_name t) ++ ": " ++ message e
  end.

(** A platform that rejects the creation of teams. *)
Definition rejecting_teams : call -> Error + value :=
  fun c =>
    match c with
    | teams_create _ _ _ _ => inl (mkError (Some 422%Z) "Validation Failed")
    | _ => inr (VObj [])
    end.

Definition env_rejecting_teams : Env :=
  mkEnv rejecting_teams (fun _ => "y"%string) no_stringify no_seal.

(** The removal of the variable [OLD] from the settings file. *)
Definition removal_of_old_variable : Change :=
  mkChange "OLD" remove (VStr "1") VUndefined.

(** An entry of the desired map whose value differs from the current
    one. *)
Definition entry_differs (current : object) (kv : string * value) : bool :=
  negb (isEqual (get current (fst kv)) (snd kv)).
End Vocabulary.
Export Vocabulary.

(* ================================================================== *)
(** * Properties of the diff engine *)
(* ================================================================== *)

Module DiffFacts.

Local Open Scope list_scope.

Lemma isEqual_nullish_l (a b : value) :
  is_nullish a = true -> isEqual a b = strict_eq a b.
Proof.
  destruct a; simpl; try discriminate; intros _; destruct b; reflexivity.
Qed.

Lemma isEqual_nullish_r (a b : value) :
  is_nullish b = true -> isEqual a b = strict_eq a b.
Proof.
  intros Hb.
  destruct b; try discriminate; destruct a; reflexivity.
Qed.

Lemma isEqual_undefined_r (v : value) :
  isEqual v VUndefined = is_undefined v.
Proof. rewrite isEqual_nullish_r by reflexivity. destruct v; reflexivity. Qed.

Lemma isEqual_undefined_l (v : value) :
  isEqual VUndefined v = is_undefined v.
Proof. destruct v; reflexivity. Qed.

Lemma strict_eq_undefined (v : value) :
  strict_eq v VUndefined = is_undefined v.
Proof. destruct v; reflexivity. Qed.

Lemma is_undefined_false (v : value) :
  v <> VUndefined -> is_undefined v = false.
Proof. destruct v; simpl; congruence. Qed.

Lemma includes_In (k : string) (ks : list string) :
  includes k ks = true <-> In k ks.
Proof.
  induction ks as [|k' ks IH]; simpl.
  - split; [discriminate | tauto].
  - destruct (String.eqb_spec k' k) as [->|Hne].
    + split; auto.
    + rewrite IH. split; [auto | intros [H|H]; [contradiction | exact H]].
Qed.

Lemma includes_not_In (k : string) (ks : list string) :
  includes k ks = false <-> ~ In k ks.
Proof.
  rewrite <- includes_In. destruct (includes k ks); split; congruence.
Qed.

Lemma get_missing (o : object) (k : string) :
  has o k = false -> get o k = VUndefined.
Proof.
  unfold has, keys. induction o as [|[k' v] o IH]; simpl; [reflexivity|].
  destruct (String.eqb k' k); [discriminate | exact IH].
Qed.

Lemma get_defined (o : object) (k : string) :
  defined_values o -> has o k = true -> get o k <> VUndefined.
Proof.
  unfold has, keys, defined_values.
  induction o as [|[k' v] o IH]; simpl; [discriminate|].
  intros Hd. inversion Hd as [|? ? Hv Hd']; subst.
  destruct (String.eqb k' k); [intros _; exact Hv | apply IH; exact Hd'].
Qed.

(** The first loop emits, for key [k], what the entry of [k] in [desired]
    calls for. *)
Lemma changed_for (current desired : object) (k : string) :
  NoDup (keys desired) ->
  changes_for k (changed current desired) =
    if has desired k && negb (isEqual (get current k) (get desired k))
    then [mkChange k (if strict_eq (get current k) VUndefined
                      then add else update)
                   (get current k) (get desired k)]
    else [].
Proof.
  unfold has, keys, changes_for.
  induction desired as [|[k' dv] desired IH]; simpl; [reflexivity|].
  intros Hnd. inversion Hnd as [|? ? Hnotin Hnd']; subst.
  specialize (IH Hnd').
  destruct (String.eqb_spec k' k) as [->|Hne].
  - (* the entry of [k]: no later entry has this key *)
    apply includes_not_In in Hnotin.
    rewrite Hnotin in IH. simpl in IH.
    destruct (isEqual (get current k) dv); simpl.
    + exact IH.
    + rewrite String.eqb_refl, IH. reflexivity.
  - destruct (isEqual (get current k') dv); simpl.
    + exact IH.
    + destruct (String.eqb_spec k' k) as [E|_]; [contradiction | exact IH].
Qed.

(** The second loop emits, for key [k], one [remove] when [k] is among the
    keys visited and not in [desired]. *)
Lemma removed_for (current desired : object) (ks : list string) (k : string) :
  NoDup ks ->
  changes_for k (removed current ks desired) =
    if includes k ks && negb (has desired k)
    then [mkChange k remove (get current k) VUndefined]
    else [].
Proof.
  unfold changes_for.
  induction ks as [|k' ks IH]; simpl; [reflexivity|].
  intros Hnd. inversion Hnd as [|? ? Hnotin Hnd']; subst.
  specialize (IH Hnd').
  destruct (String.eqb_spec k' k) as [->|Hne].
  - apply includes_not_In in Hnotin. rewrite Hnotin in IH. simpl in IH.
    destruct (has desired k); simpl.
    + exact IH.
    + rewrite String.eqb_refl, IH. reflexivity.
  - destruct (has desired k'); simpl.
    + exact IH.
    + destruct (String.eqb_spec k' k) as [E|_]; [contradiction | exact IH].
Qed.

(** Every change [compare] emits is between values [isEqual] tells apart,
    when the current map holds no [undefined]. *)
Lemma compare_changes_differ (current desired : object) :
  defined_values current ->
  Forall (fun c => isEqual (currentValue c) (newValue c) = false)
         (compare current desired).
Proof.
  intros Hd. unfold compare. apply Forall_app. split.
  - induction desired as [|[k dv] desired IH]; simpl; [constructor|].
    destruct (isEqual (get current k) dv) eqn:E; simpl; [exact IH|].
    constructor; [exact E | exact IH].
  - assert (Hks : forall k, In k (keys current) -> has current k = true).
    { intros k Hk. apply includes_In. exact Hk. }
    revert Hks. generalize (keys current) as ks.
    induction ks as [|k ks IH]; simpl; intros Hks; [constructor|].
    destruct (has desired k); simpl.
    + apply IH. intros k' Hk'. apply Hks. right. exact Hk'.
    + constructor.
      * simpl. rewrite isEqual_undefined_r.
        apply is_undefined_false, get_defined; [exact Hd|].
        apply Hks. left. reflexivity.
      * apply IH. intros k' Hk'. apply Hks. right. exact Hk'.
Qed.

Lemma changed_keys (current desired : object) :
  Forall (fun c => has desired (key c) = true) (changed current desired).
Proof.
  unfold has, keys.
  induction desired as [|[k dv] desired IH]; simpl; [constructor|].
  assert (Hrest : Forall (fun c => includes (key c) (k :: map fst desired) = true)
                         (changed current desired)).
  { eapply Forall_impl; [|exact IH]. intros c Hc. simpl.
    destruct (String.eqb k (key c)); [reflexivity | exact Hc]. }
  destruct (isEqual (get current k) dv); simpl; [exact Hrest|].
  constructor; [simpl; rewrite String.eqb_refl; reflexivity | exact Hrest].
Qed.

Lemma removed_keys (current desired : object) (ks : list string) :
  Forall (fun c => includes (key c) ks = true) (removed current ks desired).
Proof.
  induction ks as [|k ks IH]; simpl; [constructor|].
  assert (Hrest : Forall (fun c => (if String.eqb k (key c) then true
                                    else includes (key c) ks) = true)
                         (removed current ks desired)).
  { eapply Forall_impl; [|exact IH]. intros c Hc.
    destruct (String.eqb k (key c)); [reflexivity | exact Hc]. }
  destruct (has desired k); simpl; [exact Hrest|].
  constructor; [simpl; rewrite String.eqb_refl; reflexivity | exact Hrest].
Qed.




(** C7, as the code has it.  [null] is equal to [null] and to nothing else,
    [undefined] is equal to [undefined] and to nothing else; in particular
    the two are unequal to each other. *)
Theorem isEqual_null_undefined (v : value) :
  isEqual VNull v = is_null v /\ isEqual v VNull = is_null v
  /\ isEqual VUndefined v = is_undefined v
  /\ isEqual v VUndefined = is_undefined v.
Proof.
  repeat split.
  - destruct v; reflexivity.
  - rewrite isEqual_nullish_r by reflexivity. destruct v; reflexivity.
  - apply isEqual_undefined_l.
  - apply isEqual_undefined_r.
Qed.

(** C7, as stated, fails: [null] and [undefined] are not equal under
    [isEqual], in either order. *)
Lemma isEqual_null_undefined_differ :
  isEqual VNull VUndefined = false /\ isEqual VUndefined VNull = false.
Proof. split; reflexivity. Qed.

(** *** [isEqual] on one and the same value *)

Section ValueInduction.

Variable P : value -> Prop.
Hypothesis Hundefined : P VUndefined.
Hypothesis Hnull : P VNull.
Hypothesis Hbool : forall b, P (VBool b).
Hypothesis Hnum : forall n, P (VNum n).
Hypothesis Hstr : forall s, P (VStr s).
Hypothesis Harr : forall items, Forall P items -> P (VArr items).
Hypothesis Hobj :
  forall props, Forall (fun kv => P (snd kv)) props -> P (VObj props).

Lemma value_induction : forall v : value, P v.
Proof.
  fix IH 1. intros [| |b|n|s|items|props].
  - exact Hundefined.
  - exact Hnull.
  - apply Hbool.
  - apply Hnum.
  - apply Hstr.
  - apply Harr.
    exact ((fix go (l : list value) : Forall P l :=
              match l with
              | [] => Forall_nil P
              | x :: rest => Forall_cons x (IH x) (go rest)
              end) items).
  - apply Hobj.
    exact ((fix go (l : list (string * value))
              : Forall (fun kv => P (snd kv)) l :=
              match l with
              | [] => Forall_nil _
              | kv :: rest => Forall_cons kv (IH (snd kv)) (go rest)
              end) props).
Qed.

End ValueInduction.

Lemma index_key_inj (i j : nat) : index_key i = index_key j -> i = j.
Proof.
  unfold index_key. intros H.
  apply (f_equal NilEmpty.uint_of_string) in H.
  rewrite !NilEmpty.usu in H. injection H as H.
  apply DecimalNat.Unsigned.to_uint_inj. exact H.
Qed.

Lemma get_present (o : object) (k : string) (v : value) :
  NoDup (keys o) -> In (k, v) o -> get o k = v.
Proof.
  unfold keys. induction o as [|[k' v'] o IH]; simpl; [tauto|].
  intros Hnd Hin. inversion Hnd as [|? ? Hnotin Hnd']; subst.
  destruct (String.eqb_spec k' k) as [->|Hne].
  - destruct Hin as [E|Hin]; [congruence|].
    exfalso. apply Hnotin. apply (in_map fst) in Hin. exact Hin.
  - destruct Hin as [E|Hin]; [congruence|]. apply IH; assumption.
Qed.

Lemma index_from_keys (items : list value) :
  forall i k, In k (keys (index_from i items)) ->
              exists j, i <= j /\ k = index_key j.
Proof.
  induction items as [|x items IH]; simpl; intros i k H; [tauto|].
  destruct H as [<-|H]; [exists i; split; [lia | reflexivity]|].
  destruct (IH _ _ H) as (j & Hj & ->). exists j. split; [lia | reflexivity].
Qed.

Lemma index_from_NoDup (items : list value) :
  forall i, NoDup (keys (index_from i items)).
Proof.
  induction items as [|x items IH]; simpl; intros i; constructor.
  - intros H. destruct (index_from_keys _ _ _ H) as (j & Hj & E).
    apply index_key_inj in E. lia.
  - apply IH.
Qed.

Lemma index_from_length (items : list value) (i : nat) :
  List.length (keys (index_from i items)) = List.length items.
Proof.
  revert i. induction items as [|x items IH]; simpl; intros i;
    [reflexivity | rewrite IH; reflexivity].
Qed.

Lemma index_from_nth (items : list value) :
  forall i j x, nth_error items j = Some x ->
                In (index_key (i + j), x) (index_from i items).
Proof.
  induction items as [|y items IH]; intros i [|j] x H; simpl in *;
    try discriminate.
  - injection H as ->. rewrite Nat.add_0_r. left. reflexivity.
  - right. rewrite <- Nat.add_succ_comm. apply IH. exact H.
Qed.

Lemma well_formed_items (items : list value) :
  well_formed (VArr items) -> Forall well_formed items.
Proof.
  simpl. induction items as [|x items IH]; intros H; constructor;
    [apply H | apply IH, H].
Qed.

Lemma well_formed_props (props : object) :
  well_formed (VObj props) ->
  NoDup (keys props) /\ Forall (fun kv => well_formed (snd kv)) props.
Proof.
  simpl. intros [Hnd H]. split; [exact Hnd|]. clear Hnd.
  induction props as [|[k x] props IH]; constructor;
    [apply H | apply IH, H].
Qed.

(** [isEqual] holds of a well-formed value and itself through the
    structural branch, that is, also without the shortcut [a === b] on
    composite operands. *)
Lemma isEqual_refl (v : value) : well_formed v -> isEqual v v = true.
Proof.
  induction v as [| |b|n|s|items IH|props IH] using value_induction;
    intros Hwf; simpl.
  - reflexivity.
  - reflexivity.
  - rewrite Bool.eqb_reflx. reflexivity.
  - rewrite Z.eqb_refl. reflexivity.
  - rewrite String.eqb_refl. reflexivity.
  - (* an array: its keys are its indices *)
    apply well_formed_items in Hwf.
    rewrite index_from_length, Nat.eqb_refl. simpl.
    assert (Hb : forall j x, nth_error items j = Some x ->
                 includes (index_key (0 + j)) (keys (index_from 0 items)) = true
                 /\ isEqual x (get (index_from 0 items) (index_key (0 + j))) = true).
    { intros j x Hj.
      pose proof (index_from_nth items 0 j x Hj) as Hin. split.
      - apply includes_In. apply (in_map fst) in Hin. exact Hin.
      - rewrite (get_present _ _ _ (index_from_NoDup items 0) Hin).
        apply nth_error_In in Hj.
        rewrite Forall_forall in IH, Hwf. apply IH; [|apply Hwf]; exact Hj. }
    revert Hb. generalize (index_from 0 items) as bEntries. intros bEntries.
    generalize 0 as i. clear IH Hwf.
    induction items as [|x items IHl]; intros i Hb; [reflexivity|].
    destruct (Hb 0 x eq_refl) as [Hk Hx]. rewrite Nat.add_0_r in Hk, Hx.
    rewrite Hk, Hx. simpl. apply IHl.
    intros j y Hj. rewrite Nat.add_succ_comm. apply (Hb (S j) y Hj).
  - (* an object: every key is looked up in the object itself *)
    apply well_formed_props in Hwf. destruct Hwf as [Hnd Hwf].
    unfold keys at 1. rewrite length_map, Nat.eqb_refl. simpl.
    assert (Hb : forall k x, In (k, x) props ->
                 includes k (keys props) = true
                 /\ isEqual x (get props k) = true).
    { intros k x Hin. split.
      - apply includes_In. apply (in_map fst) in Hin. exact Hin.
      - rewrite (get_present _ _ _ Hnd Hin).
        rewrite Forall_forall in IH, Hwf.
        apply (IH _ Hin), (Hwf _ Hin). }
    clear IH Hwf Hnd.
    match goal with
    | |- ?loop props = true =>
        assert (Hloop : forall aProps,
                  (forall k x, In (k, x) aProps ->
                     includes k (keys props) = true
                     /\ isEqual x (get props k) = true) ->
                  loop aProps = true)
    end.
    { induction aProps as [|[k x] aProps IHl]; intros Ha; [reflexivity|].
      destruct (Ha k x (or_introl eq_refl)) as [Hk Hx].
      rewrite Hk, Hx. simpl. apply IHl.
      intros k' y Hin. apply Ha. right. exact Hin. }
    apply Hloop. exact Hb.
Qed.


(** Operands of different [typeof] are unequal. *)
Lemma isEqual_typeof (a b : value) :
  typeof a <> typeof b -> isEqual a b = false.
Proof.
  intros Hne.
  assert (Hs : strict_eq a b = false)
    by (destruct a, b; try reflexivity; exfalso; apply Hne; reflexivity).
  assert (Ht : String.eqb (typeof a) (typeof b) = false)
    by (apply String.eqb_neq; exact Hne).
  destruct a; simpl in *; rewrite ?Hs; try reflexivity;
    destruct (is_nullish b); simpl; try reflexivity; rewrite Ht; reflexivity.
Qed.

(** C8.  An array and an object are of different kinds, yet [isEqual] holds
    of the empty array and the empty object, and of an array and the object
    that has its indices as keys. *)
Theorem isEqual_array_object :
  isEqual (VArr []) (VObj []) = true
  /\ isEqual (VObj []) (VArr []) = true
  /\ isEqual (VArr [VNum 1; VNum 2]) (VObj [("0", VNum 1); ("1", VNum 2)]) = true.
Proof. repeat split; reflexivity. Qed.

End DiffFacts.
Import DiffFacts.

(* ================================================================== *)
(** * Properties of the prompt *)
(* ================================================================== *)

Module PromptFacts.

Import PromptManager.

(** C10.  [confirm] resolves to [false] exactly when the answer, trimmed
    and lowercased, is [n] or [no]; the empty answer and any other text
    resolve to [true]. *)
Theorem confirm_false_iff (answer : string) :
  (confirm answer = false <->
   toLowerCase (trim answer) = "n" \/ toLowerCase (trim answer) = "no")
  /\ confirm "" = true
  /\ confirm "yes" = true
  /\ confirm "nope" = true
  /\ confirm "  No  " = false
  /\ confirm "N" = false.
Proof.
  split; [|repeat split; reflexivity].
  unfold confirm.
  destruct (String.eqb_spec (toLowerCase (trim answer)) "n") as [E1|N1];
    destruct (String.eqb_spec (toLowerCase (trim answer)) "no") as [E2|N2];
    simpl; split; auto; try discriminate; intros [H|H]; contradiction.
Qed.

End PromptFacts.

(* ================================================================== *)
(** * Properties of the backup file name *)
(* ================================================================== *)

Module BackupFacts.

Import BackupManager.

Lemma digit_cases (n : nat) :
  exists k, k < 10 /\ digit n = ascii_of_nat (48 + k) /\ n mod 10 = k.
Proof.
  exists (n mod 10). repeat split.
  apply Nat.mod_upper_bound. discriminate.
Qed.

Ltac digit_by_cases n :=
  destruct (digit_cases n) as (k & Hk & -> & _);
  do 10 (destruct k as [|k]; [reflexivity|]); lia.

Lemma digit_not_colon_or_period (n : nat) :
  colon_or_period (digit n) = false.
Proof. digit_by_cases n. Qed.

Lemma digit_not_T (n : nat) : Ascii.eqb (digit n) "T" = false.
Proof. digit_by_cases n. Qed.

Lemma digit_not_period (n : nat) : Ascii.eqb (digit n) "." = false.
Proof. digit_by_cases n. Qed.

Lemma append_assoc (s1 s2 s3 : string) : (s1 ++ s2) ++ s3 = s1 ++ (s2 ++ s3).
Proof.
  induction s1 as [|c s1 IH]; [reflexivity|].
  cbn [append]. rewrite IH. reflexivity.
Qed.

Lemma replace_class_app (cls : ascii -> bool) (by_ s1 s2 : string) :
  replace_class cls by_ (s1 ++ s2)
  = replace_class cls by_ s1 ++ replace_class cls by_ s2.
Proof.
  induction s1 as [|c s1 IH]; [reflexivity|].
  cbn [append replace_class]. rewrite IH.
  destruct (cls c); [|reflexivity].
  symmetry. apply append_assoc.
Qed.

Lemma replace_class_pad2 (n : nat) (by_ : string) :
  replace_class colon_or_period by_ (pad2 n) = pad2 n.
Proof.
  unfold pad2. cbn [replace_class].
  rewrite !digit_not_colon_or_period. reflexivity.
Qed.

Lemma replace_class_pad3 (n : nat) (by_ : string) :
  replace_class colon_or_period by_ (pad3 n) = pad3 n.
Proof.
  unfold pad3. cbn [replace_class].
  rewrite digit_not_colon_or_period, replace_class_pad2. reflexivity.
Qed.

Lemma replace_class_pad4 (n : nat) (by_ : string) :
  replace_class colon_or_period by_ (pad4 n) = pad4 n.
Proof.
  unfold pad4. cbn [replace_class].
  rewrite digit_not_colon_or_period, replace_class_pad3. reflexivity.
Qed.

Lemma replace_first_pad2 (n : nat) (by_ s : string) :
  replace_first "T" by_ (pad2 n ++ s) = pad2 n ++ replace_first "T" by_ s.
Proof.
  unfold pad2. cbn [append replace_first]. rewrite !digit_not_T. reflexivity.
Qed.

Lemma replace_first_pad4 (n : nat) (by_ s : string) :
  replace_first "T" by_ (pad4 n ++ s) = pad4 n ++ replace_first "T" by_ s.
Proof.
  unfold pad4, pad3, pad2. cbn [append replace_first].
  rewrite !digit_not_T. reflexivity.
Qed.

Lemma split_head_pad2 (n : nat) (s : string) :
  split_head "." (pad2 n ++ s) = pad2 n ++ split_head "." s.
Proof.
  unfold pad2. cbn [append split_head]. rewrite !digit_not_period.
  reflexivity.
Qed.

Lemma split_head_pad3 (n : nat) (s : string) :
  split_head "." (pad3 n ++ s) = pad3 n ++ split_head "." s.
Proof.
  unfold pad3, pad2. cbn [append split_head]. rewrite !digit_not_period.
  reflexivity.
Qed.

Lemma split_head_pad4 (n : nat) (s : string) :
  split_head "." (pad4 n ++ s) = pad4 n ++ split_head "." s.
Proof.
  unfold pad4, pad3, pad2. cbn [append split_head]. rewrite !digit_not_period.
  reflexivity.
Qed.

(** The period before the milliseconds is replaced before the split looks
    for it: the milliseconds stay in the time stamp. *)
Lemma timestamp_shape (d : Date) :
  timestamp d =
    pad4 (year d) ++ "-" ++ pad2 (month d) ++ "-" ++ pad2 (day d) ++ "_"
    ++ pad2 (hours d) ++ "-" ++ pad2 (minutes d) ++ "-" ++ pad2 (seconds d)
    ++ "-" ++ pad3 (milliseconds d) ++ "Z".
Proof.
  unfold timestamp, toISOString.
  rewrite !replace_class_app, !replace_class_pad2, replace_class_pad3,
    replace_class_pad4.
  cbn [replace_class colon_or_period Ascii.eqb Bool.eqb orb append].
  rewrite replace_first_pad4.
  cbn [replace_first Ascii.eqb Bool.eqb append].
  rewrite replace_first_pad2.
  cbn [replace_first Ascii.eqb Bool.eqb append].
  rewrite replace_first_pad2.
  cbn [replace_first Ascii.eqb Bool.eqb append].
  rewrite split_head_pad4.
  repeat (cbn [split_head Ascii.eqb Bool.eqb append];
          rewrite ?split_head_pad2, ?split_head_pad3).
  reflexivity.
Qed.

Lemma digit_inj (a b : nat) : digit a = digit b -> a mod 10 = b mod 10.
Proof.
  destruct (digit_cases a) as (k & Hk & -> & ->).
  destruct (digit_cases b) as (l & Hl & -> & ->).
  intros H. apply (f_equal nat_of_ascii) in H.
  rewrite !nat_ascii_embedding in H by lia. lia.
Qed.

Lemma three_digits (n : nat) :
  n < 1000 ->
  n = 100 * ((n / 100) mod 10) + 10 * ((n / 10) mod 10) + n mod 10.
Proof.
  intros Hn.
  pose proof (Nat.div_mod_eq n 10) as H1.
  pose proof (Nat.div_mod_eq (n / 10) 10) as H2.
  rewrite Nat.Div0.div_div in H2. change (10 * 10) with 100 in H2.
  assert (H3 : n / 100 < 10) by (apply Nat.Div0.div_lt_upper_bound; lia).
  rewrite (Nat.mod_small _ _ H3). lia.
Qed.

(** File names tell apart any two instants whose milliseconds differ. *)
Lemma filename_millisecond_granularity (d1 d2 : Date) :
  milliseconds d1 < 1000 -> milliseconds d2 < 1000 ->
  milliseconds d1 <> milliseconds d2 ->
  filename d1 <> filename d2.
Proof.
  intros H1 H2 Hne E. apply Hne. clear Hne.
  unfold filename in E. rewrite !timestamp_shape in E.
  unfold pad4, pad3, pad2 in E. cbn [append] in E.
  injection E. intros Ec Eb Ea. intros.
  apply digit_inj in Ea, Eb, Ec.
  change (fst (Nat.divmod (milliseconds d1) 9 0 9))
    with (milliseconds d1 / 10) in Eb.
  change (fst (Nat.divmod (milliseconds d2) 9 0 9))
    with (milliseconds d2 / 10) in Eb.
  change (fst (Nat.divmod (milliseconds d1) 99 0 99))
    with (milliseconds d1 / 100) in Ea.
  change (fst (Nat.divmod (milliseconds d2) 99 0 99))
    with (milliseconds d2 / 100) in Ea.
  rewrite (three_digits _ H1), (three_digits _ H2), Ea, Eb, Ec.
  reflexivity.
Qed.

(** C6.  Two backups taken within one second, at 10:30:45.123 and at
    10:30:45.456, are written under different names, the milliseconds being
    part of the name; the second write leaves the first backup in place. *)
Theorem same_second_backups_are_distinct :
  same_second capture1 capture2
  /\ filename capture1 = "backup-2024-01-15_10-30-45-123Z.json"
  /\ filename capture2 = "backup-2024-01-15_10-30-45-456Z.json"
  /\ forall (S : Type) (s1 s2 : S),
       let run1 := createBackup "org-settings/backups" capture1 s1 [] in
       let run2 := createBackup "org-settings/backups" capture2 s2 (fst run1) in
       snd run1 <> snd run2
       /\ readFile (fst run2) (snd run1) = Some (mkBackup (toISOString capture1) s1)
       /\ readFile (fst run2) (snd run2) = Some (mkBackup (toISOString capture2) s2).
Proof.
  split; [repeat split|].
  split; [reflexivity|]. split; [reflexivity|].
  intros S s1 s2. cbv zeta. split; [discriminate|]. split; reflexivity.
Qed.

End BackupFacts.

(* ================================================================== *)
(** * Properties of the configure and restore loops *)
(* ================================================================== *)

Module RunFacts.

Local Open Scope list_scope.
Local Open Scope run_scope.

(** ** The monad *)

Lemma for_of_cons {A} (x : A) (rest : list A) (body : A -> M unit)
      (w w' : World) :
  body x w = (inr tt, w') ->
  for_of (x :: rest) body w = for_of rest body w'.
Proof. intros H. simpl. unfold bind. rewrite H. reflexivity. Qed.

Lemma for_of_ext {A} (l : list A) (f g : A -> M unit) :
  Forall (fun x => forall w, f x w = g x w) l ->
  forall w, for_of l f w = for_of l g w.
Proof.
  induction 1 as [|x l Hx _ IH]; intros w; simpl; [reflexivity|].
  unfold bind. rewrite Hx. destruct (g x w) as [[e|[]] w']; [reflexivity|].
  apply IH.
Qed.

(** A [try] whose handler only records the failure does not throw. *)
Lemma try_catch_recorded (body : M unit) (entry : Error -> string) (w : World) :
  exists w', try_catch body (fun e => push_failed (entry e)) w = (inr tt, w').
Proof.
  unfold try_catch. destruct (body w) as [[e|[]] w1]; eauto.
  unfold push_failed. eauto.
Qed.

(** ** Secrets *)

(** C4, as the code has it.  A [remove] change of a secret sends no request
    and adds one entry to the skipped list and none to the other two; the
    entry carries the note on manual removal when the user confirmed, and is
    the plain name of the secret when the user declined. *)
Theorem secret_removal_is_skipped (env : Env) (change : Change) (w : World) :
  type change = remove ->
  configure_secret env change w =
    (inr tt,
     mkWorld (asked w ++ ["Apply this change? (Y/n) "]) (sent w)
       (mkResults (successful (results w)) (failed (results w))
          (skipped (results w)
           ++ [if PromptManager.confirm (stdin env (List.length (asked w)))
               then ("Secret: " ++ key change ++ " (removal not automated)")%string
               else ("Secret: " ++ key change)%string]))).
Proof.
  intros Hrm.
  unfold configure_secret, is_update, is_remove, is_add. rewrite Hrm. simpl.
  unfold bind, confirmChange, confirm.
  destruct (PromptManager.confirm (stdin env (List.length (asked w))));
    reflexivity.
Qed.

Lemma secret_removal_is_skipped_witness :
  configure_secret env_yes removal_of_old_token start =
    (inr tt,
     mkWorld ["Apply this change? (Y/n) "] []
       (mkResults [] [] ["Secret: OLD_TOKEN (removal not automated)"])).
Proof.
  exact (secret_removal_is_skipped env_yes removal_of_old_token start eq_refl).
Defined.

(** C4, as stated, fails: when the user declines, the skipped entry of a
    secret's removal carries no note on manual action. *)
Lemma secret_removal_declined_has_no_note :
  configure_secrets env_no ["OLD_TOKEN"] [] start =
    (inr tt,
     mkWorld ["Apply this change? (Y/n) "] []
       (mkResults [] [] ["Secret: OLD_TOKEN"]))
  /\ contains "removal not automated" "Secret: OLD_TOKEN" = false.
Proof. split; reflexivity. Qed.

(** ** Restore *)

Lemma configure_variable_differing (env : Env) (c : Change) (w : World) :
  isEqual (currentValue c) (newValue c) = false ->
  restore_variable env c w = configure_variable env c w.
Proof.
  intros H. unfold configure_variable, restore_variable. rewrite H.
  reflexivity.
Qed.

Lemma configure_privilege_differing (env : Env) (c : Change) (w : World) :
  isEqual (currentValue c) (newValue c) = false ->
  restore_privilege env c w = configure_privilege env c w.
Proof.
  intros H. unfold configure_privilege, restore_privilege. rewrite H.
  reflexivity.
Qed.

Lemma restore_variables_configure (env : Env) (current backup : object)
      (w : World) :
  defined_values current ->
  restore_variables env current backup w
  = configure_variables env current backup w.
Proof.
  intros Hd. unfold restore_variables, configure_variables.
  apply for_of_ext.
  eapply Forall_impl; [|apply compare_changes_differ; exact Hd].
  intros c Hc w0. apply configure_variable_differing. exact Hc.
Qed.

Lemma restore_privileges_configure (env : Env) (current backup : object)
      (w : World) :
  defined_values current ->
  restore_privileges env current backup w
  = configure_privileges env current backup w.
Proof.
  intros Hd. unfold restore_privileges, configure_privileges.
  apply for_of_ext.
  eapply Forall_impl; [|apply compare_changes_differ; exact Hd].
  intros c Hc w0. apply configure_privilege_differing. exact Hc.
Qed.




(** ** Teams *)

Lemma upsert_member_step (env : Env) (slug : value) (name : string)
      (m : Member) (w : World) :
  upsert_member env slug name m w =
    (inr tt,
     mkWorld (asked w)
       (sent w ++ [teams_addOrUpdateMembershipForUserInOrg slug (username m)
                     (member_role m)])
       (mkResults (successful (results w))
          (failed (results w)
           ++ (if rejected env (teams_addOrUpdateMembershipForUserInOrg slug
                                  (username m) (member_role m))
               then [("Team " ++ name ++ " - Member " ++ username m)%string]
               else []))
          (skipped (results w)))).
Proof.
  unfold upsert_member, addTeamMember, try_catch, bind, request, rejected,
    member_role.
  destruct (role m); simpl;
    match goal with |- context [octokit env ?c] =>
      destruct (octokit env c) as [e|data] end;
    simpl; rewrite ?app_nil_r; destruct w as [w_asked w_sent [su fa sk]]; reflexivity.
Qed.

Lemma upsert_loop (env : Env) (slug : value) (t : Team) (ms : list Member) :
  forall w,
    for_of ms (upsert_member env slug (team_name t)) w =
      (inr tt,
       mkWorld (asked w) (sent w ++ map (member_request slug) ms)
         (mkResults (successful (results w))
            (failed (results w)
             ++ map (member_failure t)
                  (filter (fun m => rejected env (member_request slug m)) ms))
            (skipped (results w)))).
Proof.
  induction ms as [|m ms IH]; intros w.
  - simpl. rewrite !app_nil_r. destruct w as [w_asked w_sent [su fa sk]]. reflexivity.
  - erewrite for_of_cons by apply upsert_member_step.
    rewrite IH. simpl. unfold member_request at 3.
    destruct (rejected env _); simpl; rewrite <- !app_assoc; reflexivity.
Qed.

(** Every declared member is upserted, whatever became of the others, and
    each rejected upsert adds its entry to the failed list. *)
Lemma upsert_members_spec (env : Env) (slug : value) (t : Team) (w : World) :
  upsert_members env slug t w =
    (inr tt,
     mkWorld (asked w)
       (sent w ++ map (member_request slug) (declared_members t))
       (mkResults (successful (results w))
          (failed (results w)
           ++ map (member_failure t)
                (filter (fun m => rejected env (member_request slug m))
                        (declared_members t)))
          (skipped (results w)))).
Proof.
  unfold upsert_members, declared_members.
  destruct (members t) as [[|m ms]|].
  - simpl. rewrite !app_nil_r. destruct w as [w_asked w_sent [su fa sk]]. reflexivity.
  - apply (upsert_loop env slug t (m :: ms) w).
  - simpl. rewrite !app_nil_r. destruct w as [w_asked w_sent [su fa sk]]. reflexivity.
Qed.

(** The body of the team loop does not throw. *)
Lemma configure_team_returns (env : Env) (currentTeams : list value)
      (t : Team) (w : World) :
  exists w', configure_team env currentTeams t w = (inr tt, w').
Proof.
  unfold configure_team, bind, confirm.
  destruct (find _ currentTeams);
    destruct (PromptManager.confirm _);
    first [apply try_catch_recorded | unfold push_skipped; eauto].
Qed.


(** One member of three is rejected: the three are upserted, the failed
    list holds the one entry, the team is recorded as successful. *)
Example one_member_of_three_rejected :
  configure_teams env_rejecting_bob [] [staff] start =
    (inr tt,
     mkWorld
       [(nl ++ "Create new team " ++ quoted "Course Staff" ++ "? (Y/n) ")%string]
       [teams_create "Course Staff" "" "closed" "notifications_enabled";
        teams_addOrUpdateMembershipForUserInOrg (VStr "course-staff")
          "alice" "maintainer";
        teams_addOrUpdateMembershipForUserInOrg (VStr "course-staff")
          "bob" "member";
        teams_addOrUpdateMembershipForUserInOrg (VStr "course-staff")
          "carol" "member"]
       (mkResults ["Team: Course Staff"]
                  ["Team Course Staff - Member bob"] [])).
Proof. reflexivity. Qed.



(** ** Rulesets *)

(** With a team reference whose lookup is rejected in the list, the loop of
    [resolveBypassActors] throws at the first such reference, having sent
    lookups only. *)
Lemma resolveLoop_unresolvable (env : Env) (actors : list Actor) :
  existsb (lookup_fails env) actors = true ->
  exists t e lookups,
    (exists a, In a actors /\ team_reference a = Some t)
    /\ octokit env (teams_getByName t) = inl e
    /\ forallb is_team_lookup lookups = true
    /\ forall (resolved : list Actor) (w : World),
         resolveLoop env actors resolved w =
           (inl (new_Error (unresolved_message t e)),
            mkWorld (asked w) (sent w ++ lookups) (results w)).
Proof.
  induction actors as [|a actors IH]; intros H; [discriminate|].
  simpl in H. unfold lookup_fails at 1 in H. unfold rejected at 1 in H.
  destruct (team_reference a) as [t|] eqn:Et.
  - destruct (octokit env (teams_getByName t)) as [e|data] eqn:Eo.
    + exists t, e, [teams_getByName t].
      repeat split; try assumption; try reflexivity.
      * exists a. split; [left; reflexivity | exact Et].
      * intros resolved w. simpl.
        unfold bind, resolveActor. rewrite Et.
        unfold try_catch, getTeamId, try_catch, bind, request.
        rewrite Eo. reflexivity.
    + simpl in H.
      destruct (IH H) as (t' & e' & lookups & (a' & Hin & Ha') & He' & Hl & Hrun).
      exists t', e', (teams_getByName t :: lookups).
      repeat split; try assumption.
      * exists a'. split; [right; exact Hin | exact Ha'].
      * intros resolved w. simpl.
        unfold bind, resolveActor. rewrite Et.
        unfold try_catch, getTeamId, try_catch, bind, request.
        rewrite Eo. simpl. rewrite Hrun. simpl.
        rewrite <- app_assoc. reflexivity.
  - simpl in H.
    destruct (IH H) as (t' & e' & lookups & (a' & Hin & Ha') & He' & Hl & Hrun).
    exists t', e', lookups. repeat split; try assumption.
    + exists a'. split; [right; exact Hin | exact Ha'].
    + intros resolved w. simpl.
      unfold bind, resolveActor. rewrite Et. unfold ret. apply Hrun.
Qed.

(** The body of the ruleset loop does not throw. *)
Lemma configure_ruleset_returns (env : Env) (currentRulesets : list value)
      (r : Ruleset) (w : World) :
  exists w', configure_ruleset env currentRulesets r w = (inr tt, w').
Proof.
  unfold configure_ruleset, bind, confirm.
  destruct (find _ currentRulesets);
    destruct (PromptManager.confirm _);
    first [apply try_catch_recorded | unfold push_skipped; eauto].
Qed.




(** The run on these two rulesets: the team [staff] is looked up and
    resolved, the lookup of [ghosts] is rejected, no ruleset request is sent
    for [guarded], and [plain] is created. *)
Example ghost_team_run :
  configure_rulesets env_without_ghosts [] [guarded; plain] start =
    (inr tt,
     mkWorld
       [(nl ++ "Create new ruleset " ++ quoted "guarded" ++ "? (Y/n) ")%string;
        (nl ++ "Create new ruleset " ++ quoted "plain" ++ "? (Y/n) ")%string]
       [teams_getByName "staff"; teams_getByName "ghosts";
        repos_createOrgRuleset plain]
       (mkResults ["Ruleset: plain"]
          [("Ruleset: guarded - Failed to create branch ruleset: "
            ++ "Failed to resolve team " ++ quoted "ghosts"
            ++ ": Failed to get team ID for " ++ quoted "ghosts"
            ++ ": Not Found")%string]
          [])).
Proof. reflexivity. Qed.

End RunFacts.

(* ================================================================== *)
(** * Further properties of the diff engine *)
(* ================================================================== *)

Module DiffMore.

Local Open Scope list_scope.

Lemma index_from_entries_length (items : list value) (i : nat) :
  List.length (index_from i items) = List.length items.
Proof.
  revert i. induction items as [|x items IH]; simpl; intros i;
    [reflexivity | rewrite IH; reflexivity].
Qed.

(** The answer of [isEqual] on two composite values, entry by entry. *)
Lemma isEqual_composite (a b : value) :
  is_composite a = true -> is_composite b = true ->
  isEqual a b =
    Nat.eqb (List.length (own_entries a)) (List.length (own_entries b))
    && forallb (entry_matches (own_entries b)) (own_entries a).
Proof.
  intros Ha Hb.
  assert (Hloop_arr : forall bE (aItems : list value) i,
    (fix loop (i : nat) (l : list value) {struct l} : bool :=
       match l with
       | [] => true
       | av :: rest =>
           if negb (includes (index_key i) (keys bE)) then false
           else if negb (isEqual av (get bE (index_key i))) then false
                else loop (S i) rest
       end) i aItems
    = forallb (entry_matches bE) (index_from i aItems)).
  { intros bE aItems. induction aItems as [|x aItems IH]; intros i;
      [reflexivity|].
    cbn [index_from forallb]. unfold entry_matches at 1. cbn [fst snd].
    destruct (includes (index_key i) (keys bE)); simpl; [|reflexivity].
    destruct (isEqual x (get bE (index_key i))); simpl;
      [apply IH | reflexivity]. }
  assert (Hloop_obj : forall bE (aProps : object),
    (fix loop (l : list (string * value)) : bool :=
       match l with
       | [] => true
       | (key, av) :: rest =>
           if negb (includes key (keys bE)) then false
           else if negb (isEqual av (get bE key)) then false
                else loop rest
       end) aProps
    = forallb (entry_matches bE) aProps).
  { intros bE aProps. induction aProps as [|[k x] aProps IH]; [reflexivity|].
    cbn [forallb]. unfold entry_matches at 1. cbn [fst snd].
    destruct (includes k (keys bE)); simpl; [|reflexivity].
    destruct (isEqual x (get bE k)); simpl; [apply IH | reflexivity]. }
  destruct a as [| | | | |aItems|aProps]; try discriminate;
    destruct b as [| | | | |bItems|bProps]; try discriminate;
    cbn [isEqual strict_eq is_nullish orb typeof own_entries];
    rewrite String.eqb_refl; cbn [negb];
    rewrite ?Hloop_arr, ?Hloop_obj;
    unfold keys; rewrite !length_map, ?index_from_entries_length;
    destruct (Nat.eqb _ _); reflexivity.
Qed.

Lemma entries_NoDup (v : value) :
  well_formed v -> NoDup (keys (own_entries v)).
Proof.
  destruct v; intros Hwf; simpl; try constructor.
  - apply index_from_NoDup.
  - apply well_formed_props in Hwf. apply Hwf.
Qed.

Lemma index_from_Forall (P : value -> Prop) (items : list value) :
  Forall P items -> forall i, Forall (fun kx => P (snd kx)) (index_from i items).
Proof.
  induction 1 as [|x items Hx _ IH]; intros i; simpl; constructor;
    [exact Hx | apply IH].
Qed.

Lemma entries_Forall (P : value -> Prop) (v : value) :
  match v with
  | VArr items => Forall P items
  | VObj props => Forall (fun kx => P (snd kx)) props
  | _ => True
  end ->
  Forall (fun kx => P (snd kx)) (own_entries v).
Proof.
  destruct v; intros H; simpl; try constructor.
  - apply index_from_Forall. exact H.
  - exact H.
Qed.

Lemma entries_well_formed (v : value) :
  well_formed v -> Forall (fun kx => well_formed (snd kx)) (own_entries v).
Proof.
  intros Hwf. apply entries_Forall. destruct v; try exact I.
  - apply well_formed_items. exact Hwf.
  - apply well_formed_props in Hwf. apply Hwf.
Qed.

Lemma entry_matches_present (bEntries : object) (k : string) (x y : value) :
  NoDup (keys bEntries) -> In (k, y) bEntries ->
  entry_matches bEntries (k, x) = isEqual x y.
Proof.
  intros Hnd Hin. unfold entry_matches. cbn [fst snd].
  rewrite (get_present _ _ _ Hnd Hin).
  assert (Hk : includes k (keys bEntries) = true).
  { apply includes_In. apply (in_map fst) in Hin. exact Hin. }
  rewrite Hk. reflexivity.
Qed.

Lemma compare_self (s : object) :
  well_formed (VObj s) -> compare s s = [].
Proof.
  intros Hwf. apply well_formed_props in Hwf. destruct Hwf as [Hnd Hwf].
  unfold compare.
  assert (Hc : forall desired,
             (forall k v, In (k, v) desired -> In (k, v) s) ->
             changed s desired = []).
  { induction desired as [|[k v] desired IH]; intros Hsub; [reflexivity|].
    simpl. rewrite (get_present _ _ _ Hnd (Hsub k v (or_introl eq_refl))).
    rewrite isEqual_refl.
    - simpl. apply IH. intros k' v' Hin. apply Hsub. right. exact Hin.
    - rewrite Forall_forall in Hwf.
      apply (Hwf (k, v)), Hsub. left. reflexivity. }
  assert (Hr : forall ks, (forall k, In k ks -> In k (keys s)) ->
                          removed s ks s = []).
  { induction ks as [|k ks IH]; intros Hsub; [reflexivity|].
    simpl. unfold has.
    assert (Hk : includes k (keys s) = true)
      by (apply includes_In, Hsub; left; reflexivity).
    rewrite Hk. simpl. apply IH. intros k' Hin. apply Hsub. right. exact Hin. }
  rewrite Hc, Hr; auto.
Qed.

(** X1.  A map compared with itself has no change; hence configuration
    against an organisation whose variables and privileges are already the
    declared ones asks nothing, sends nothing and records nothing. *)
Theorem compare_same (env : Env) (s : object) (w : World) :
  well_formed (VObj s) ->
  compare s s = []
  /\ configure_variables env s s w = (inr tt, w)
  /\ configure_privileges env s s w = (inr tt, w).
Proof.
  intros Hwf. pose proof (compare_self s Hwf) as E.
  unfold configure_variables, configure_privileges. rewrite E.
  repeat split.
Qed.

Lemma compare_same_witness :
  compare [("A", VNum 1); ("B", VObj [("x", VArr [VNum 2; VNull])])]
          [("A", VNum 1); ("B", VObj [("x", VArr [VNum 2; VNull])])] = []
  /\ configure_variables env_yes
       [("A", VNum 1); ("B", VObj [("x", VArr [VNum 2; VNull])])]
       [("A", VNum 1); ("B", VObj [("x", VArr [VNum 2; VNull])])] start
     = (inr tt, start)
  /\ configure_privileges env_yes
       [("A", VNum 1); ("B", VObj [("x", VArr [VNum 2; VNull])])]
       [("A", VNum 1); ("B", VObj [("x", VArr [VNum 2; VNull])])] start
     = (inr tt, start).
Proof.
  apply (compare_same env_yes
           [("A", VNum 1); ("B", VObj [("x", VArr [VNum 2; VNull])])] start).
  simpl. repeat split; repeat constructor; simpl; intuition discriminate.
Defined.

(** X2.  [isEqual] does not look at the order of the keys of an object. *)
Theorem isEqual_key_order (ps qs : object) :
  well_formed (VObj ps) -> Permutation ps qs ->
  isEqual (VObj ps) (VObj qs) = true.
Proof.
  intros Hwf Hperm.
  apply well_formed_props in Hwf. destruct Hwf as [Hnd Hwf].
  assert (Hndq : NoDup (keys qs)).
  { unfold keys. eapply Permutation_NoDup; [|exact Hnd].
    apply Permutation_map. exact Hperm. }
  rewrite isEqual_composite by reflexivity. cbn [own_entries].
  rewrite (Permutation_length Hperm), Nat.eqb_refl. simpl.
  apply forallb_forall. intros [k x] Hin.
  rewrite (entry_matches_present qs k x x Hndq).
  - apply isEqual_refl. rewrite Forall_forall in Hwf. apply (Hwf _ Hin).
  - eapply Permutation_in; eassumption.
Qed.

Lemma isEqual_key_order_witness :
  isEqual (VObj [("a", VNum 1); ("b", VStr "x"); ("c", VNull)])
          (VObj [("c", VNull); ("a", VNum 1); ("b", VStr "x")]) = true.
Proof.
  apply isEqual_key_order.
  - simpl. repeat split. repeat constructor; simpl; intuition discriminate.
  - apply Permutation_sym.
    apply (Permutation_cons_app [("a", VNum 1); ("b", VStr "x")] []).
    reflexivity.
Defined.

Lemma array_entries (b : list value) :
  forall i j y, nth_error b j = Some y ->
    includes (index_key (i + j)) (keys (index_from i b)) = true
    /\ get (index_from i b) (index_key (i + j)) = y.
Proof.
  intros i j y Hj. pose proof (index_from_nth b i j y Hj) as Hin. split.
  - apply includes_In. apply (in_map fst) in Hin. exact Hin.
  - apply get_present; [apply index_from_NoDup | exact Hin].
Qed.

Lemma arrays_elementwise (bEntries : object) (a b : list value) :
  forall i,
    (forall j y, nth_error b j = Some y ->
       includes (index_key (i + j)) (keys bEntries) = true
       /\ get bEntries (index_key (i + j)) = y) ->
    List.length a = List.length b ->
    (forallb (entry_matches bEntries) (index_from i a) = true
     <-> Forall2 (fun x y => isEqual x y = true) a b).
Proof.
  revert b. induction a as [|x a IH]; intros [|y b] i HE Hlen;
    try discriminate.
  - split; [constructor | reflexivity].
  - cbn [index_from forallb]. unfold entry_matches at 1. cbn [fst snd].
    destruct (HE 0 y eq_refl) as [Hk Hg]. rewrite Nat.add_0_r in Hk, Hg.
    rewrite Hk, Hg. simpl.
    assert (HE' : forall j z, nth_error b j = Some z ->
              includes (index_key (S i + j)) (keys bEntries) = true
              /\ get bEntries (index_key (S i + j)) = z).
    { intros j z Hj. rewrite Nat.add_succ_comm. apply (HE (S j) z Hj). }
    injection Hlen as Hlen. specialize (IH b (S i) HE' Hlen).
    rewrite andb_true_iff, IH. split.
    + intros [Hx Hr]. constructor; assumption.
    + intros H. inversion H; subst. split; assumption.
Qed.

(** X3.  [isEqual] holds of two arrays exactly when they have the same
    length and [isEqual] holds of their elements position by position. *)
Theorem isEqual_arrays (a b : list value) :
  isEqual (VArr a) (VArr b) = true
  <-> Forall2 (fun x y => isEqual x y = true) a b.
Proof.
  rewrite isEqual_composite by reflexivity. cbn [own_entries].
  rewrite !index_from_entries_length, andb_true_iff, Nat.eqb_eq.
  split.
  - intros [Hlen H].
    apply (arrays_elementwise (index_from 0 b) a b 0); try assumption.
    intros j y Hj. apply array_entries. exact Hj.
  - intros H. pose proof (Forall2_length H) as Hlen. split; [exact Hlen|].
    apply (arrays_elementwise (index_from 0 b) a b 0); try assumption.
    intros j y Hj. apply array_entries. exact Hj.
Qed.

(** The order of the elements of an array matters. *)
Example isEqual_array_order :
  isEqual (VArr [VNum 1; VNum 2]) (VArr [VNum 2; VNum 1]) = false.
Proof. reflexivity. Qed.

(** The composite case of the symmetry: the keys of [a] are among those of
    [b] and as many, hence the same; the values are swapped by the induction
    hypothesis on the values of [a]. *)
Lemma isEqual_sym_composite (a b : value) :
  is_composite a = true ->
  Forall (fun kx => forall y, well_formed (snd kx) -> well_formed y ->
                      isEqual (snd kx) y = true -> isEqual y (snd kx) = true)
         (own_entries a) ->
  well_formed a -> well_formed b ->
  isEqual a b = true -> isEqual b a = true.
Proof.
  intros Hca IH Hwa Hwb H.
  assert (Hcb : is_composite b = true).
  { destruct a; try discriminate; destruct b; try discriminate; reflexivity. }
  rewrite isEqual_composite in H by assumption.
  rewrite isEqual_composite by assumption.
  apply andb_true_iff in H. destruct H as [Hlen Hall].
  apply Nat.eqb_eq in Hlen. rewrite forallb_forall in Hall.
  pose proof (entries_NoDup a Hwa) as Hnda.
  pose proof (entries_NoDup b Hwb) as Hndb.
  pose proof (entries_well_formed a Hwa) as Hwas.
  pose proof (entries_well_formed b Hwb) as Hwbs.
  rewrite Forall_forall in IH, Hwas, Hwbs.
  (* the keys of [a] are keys of [b] *)
  assert (Hincl : incl (keys (own_entries a)) (keys (own_entries b))).
  { intros k Hk. apply in_map_iff in Hk. destruct Hk as ([k' x] & <- & Hin).
    specialize (Hall _ Hin). unfold entry_matches in Hall.
    apply andb_true_iff in Hall. apply includes_In. apply Hall. }
  (* and, being as many, all of them *)
  assert (Hincl' : incl (keys (own_entries b)) (keys (own_entries a))).
  { apply NoDup_length_incl; try assumption.
    unfold keys. rewrite !length_map, Hlen. apply le_n. }
  rewrite Hlen, Nat.eqb_refl. simpl.
  apply forallb_forall. intros [k y] Hin.
  assert (Hk : In k (keys (own_entries a))).
  { apply Hincl'. apply (in_map fst) in Hin. exact Hin. }
  apply in_map_iff in Hk. destruct Hk as ([k' x] & Hk' & Hina).
  cbn [fst] in Hk'. subst k'.
  rewrite (entry_matches_present _ k y x Hnda Hina).
  specialize (Hall _ Hina).
  rewrite (entry_matches_present _ k x y Hndb Hin) in Hall.
  apply (IH _ Hina); [apply (Hwas _ Hina) | apply (Hwbs _ Hin) | exact Hall].
Qed.

(** One direction of the symmetry of [isEqual], by induction on the left
    operand. *)
Lemma isEqual_sym_true (a : value) :
  forall b, well_formed a -> well_formed b ->
            isEqual a b = true -> isEqual b a = true.
Proof.
  induction a as [| |x|n|s|items IH|props IH] using value_induction;
    intros b Hwa Hwb H.
  - destruct b; try discriminate; reflexivity.
  - destruct b; try discriminate; reflexivity.
  - destruct b as [| |y| | | |]; try discriminate. simpl in *.
    destruct (Bool.eqb x y) eqn:E; [|discriminate].
    apply Bool.eqb_prop in E. subst. rewrite Bool.eqb_reflx. reflexivity.
  - destruct b as [| | |m| | |]; try discriminate. simpl in *.
    destruct (Z.eqb n m) eqn:E; [|discriminate].
    apply Z.eqb_eq in E. subst. rewrite Z.eqb_refl. reflexivity.
  - destruct b as [| | | |s'| |]; try discriminate. simpl in *.
    destruct (String.eqb s s') eqn:E; [|discriminate].
    apply String.eqb_eq in E. subst. rewrite String.eqb_refl. reflexivity.
  - apply (isEqual_sym_composite (VArr items)); try assumption; try reflexivity.
    apply (entries_Forall
             (fun x => forall b, well_formed x -> well_formed b ->
                                 isEqual x b = true -> isEqual b x = true)
             (VArr items)). exact IH.
  - apply (isEqual_sym_composite (VObj props)); try assumption; reflexivity.
Qed.

(** X4.  [isEqual] is symmetric on well-formed values. *)
Theorem isEqual_sym (a b : value) :
  well_formed a -> well_formed b -> isEqual a b = isEqual b a.
Proof.
  intros Ha Hb.
  destruct (isEqual a b) eqn:Eab; destruct (isEqual b a) eqn:Eba;
    try reflexivity.
  - rewrite (isEqual_sym_true a b Ha Hb Eab) in Eba. discriminate.
  - rewrite (isEqual_sym_true b a Hb Ha Eba) in Eab. discriminate.
Qed.

Lemma isEqual_sym_witness :
  isEqual (VObj [("0", VStr "a")]) (VArr [VStr "a"])
  = isEqual (VArr [VStr "a"]) (VObj [("0", VStr "a")]).
Proof.
  apply isEqual_sym; simpl; repeat split.
  repeat constructor. simpl. tauto.
Defined.


Import SettingsDiffDisplay.

(** X5.  [groupChanges] keeps every change, in order, and makes no empty
    group. *)
Theorem groupChanges_keeps_changes
        (allChanges : list (string * option (list Change))) :
  List.concat (map snd (groupChanges allChanges))
  = List.concat (map (fun e => changes_of (snd e)) allChanges)
  /\ Forall (fun g => snd g <> []) (groupChanges allChanges)
  /\ forall category,
       In category (map fst (groupChanges allChanges))
       <-> exists l, In (category, Some l) allChanges /\ l <> [].
Proof.
  split; [|split].
  - induction allChanges as [|[category [[|c l]|]] rest IH]; simpl;
      try exact IH; [reflexivity|].
    do 2 f_equal. exact IH.
  - induction allChanges as [|[category [[|c l]|]] rest IH]; simpl;
      try exact IH; constructor; [discriminate | exact IH].
  - intros cat.
    induction allChanges as [|[category [[|c l]|]] rest IH]; simpl.
    + split; [intros [] | intros (l & [] & _)].
    + rewrite IH. split.
      * intros (l & Hin & Hne). exists l. split; [right|]; assumption.
      * intros (l & [E|Hin] & Hne).
        -- injection E as _ <-. contradiction.
        -- exists l. split; assumption.
    + rewrite IH. split.
      * intros [<-|(l' & Hin & Hne)].
        -- exists (c :: l). split; [left; reflexivity | discriminate].
        -- exists l'. split; [right|]; assumption.
      * intros (l' & [E|Hin] & Hne).
        -- injection E as <- _. left. reflexivity.
        -- right. exists l'. split; assumption.
    + rewrite IH. split.
      * intros (l & Hin & Hne). exists l. split; [right|]; assumption.
      * intros (l & [E|Hin] & Hne); [discriminate|].
        exists l. split; assumption.
Qed.

Lemma join_head (sep : string) (c : ascii) (l : string) (rest : list string) :
  exists tail, join sep (String c l :: rest) = String c tail.
Proof. destruct rest; simpl; eauto. Qed.

(** X6.  [format] answers [No changes detected] for the empty list and for
    no other list, whatever [JSON.stringify] prints. *)
Theorem format_no_changes (stringify : value -> string)
        (changes : list Change) :
  format stringify changes = "No changes detected"%string <-> changes = [].
Proof.
  split; [|intros ->; reflexivity].
  destruct changes as [|c rest]; [reflexivity|].
  unfold format. cbn [List.length Nat.eqb flat_map].
  intros H. exfalso.
  unfold change_lines in H.
  destruct (type c); cbn [app String.append] in H;
    match type of H with
    | join ?sep (String ?a ?l :: ?r) = _ =>
        destruct (join_head sep a l r) as [tail Ht]; rewrite Ht in H
    end; discriminate.
Qed.

(** A map formatted against itself shows no change. *)
Corollary format_compare_same (stringify : value -> string) (s : object) :
  well_formed (VObj s) ->
  format stringify (compare s s) = "No changes detected"%string.
Proof. intros H. rewrite compare_self by exact H. reflexivity. Qed.

End DiffMore.

(* ================================================================== *)
(** * Further properties of the prompt *)
(* ================================================================== *)

Module PromptMore.

Import PromptManager.

Lemma trimStart_all_space (s : string) :
  all_space s = true -> trimStart s = "".
Proof.
  induction s as [|c s IH]; simpl; [reflexivity|].
  destruct (is_space c); [exact IH | discriminate].
Qed.

Lemma trimEnd_all_space (s : string) :
  all_space s = true -> trimEnd s = "".
Proof.
  induction s as [|c s IH]; simpl; [reflexivity|].
  destruct (is_space c); [|discriminate].
  intros H. rewrite (IH H). reflexivity.
Qed.

Lemma trimStart_app (s post : string) :
  trimStart (s ++ post) =
    if all_space s then trimStart post else trimStart s ++ post.
Proof.
  induction s as [|c s IH]; simpl; [reflexivity|].
  destruct (is_space c); [exact IH | reflexivity].
Qed.

Lemma trimEnd_app_space (s post : string) :
  all_space post = true -> trimEnd (s ++ post) = trimEnd s.
Proof.
  intros H. induction s as [|c s IH]; simpl.
  - apply trimEnd_all_space. exact H.
  - rewrite IH. reflexivity.
Qed.

(** White space around an answer is stripped by [trim]. *)
Lemma trim_padding (pre s post : string) :
  all_space pre = true -> all_space post = true ->
  trim (pre ++ s ++ post) = trim s.
Proof.
  intros Hpre Hpost. unfold trim.
  rewrite trimStart_app, Hpre, trimStart_app.
  destruct (all_space s) eqn:Es.
  - rewrite (trimStart_all_space post Hpost), (trimStart_all_space s Es).
    reflexivity.
  - apply trimEnd_app_space. exact Hpost.
Qed.

Lemma lower_char_space (c : ascii) : is_space (lower_char c) = is_space c.
Proof.
  destruct c as [[] [] [] [] [] [] [] []]; reflexivity.
Qed.

Lemma lower_char_idem (c : ascii) : lower_char (lower_char c) = lower_char c.
Proof.
  destruct c as [[] [] [] [] [] [] [] []]; reflexivity.
Qed.

Lemma toLowerCase_idem (s : string) :
  toLowerCase (toLowerCase s) = toLowerCase s.
Proof.
  induction s as [|c s IH]; simpl; [reflexivity|].
  rewrite lower_char_idem, IH. reflexivity.
Qed.

Lemma trimStart_lower (s : string) :
  trimStart (toLowerCase s) = toLowerCase (trimStart s).
Proof.
  induction s as [|c s IH]; simpl; [reflexivity|].
  rewrite lower_char_space. destruct (is_space c); [exact IH | reflexivity].
Qed.

Lemma trimEnd_lower (s : string) :
  trimEnd (toLowerCase s) = toLowerCase (trimEnd s).
Proof.
  induction s as [|c s IH]; simpl; [reflexivity|].
  rewrite IH, lower_char_space.
  destruct (trimEnd s); simpl; [destruct (is_space c)|]; reflexivity.
Qed.

Lemma trim_lower (s : string) : trim (toLowerCase s) = toLowerCase (trim s).
Proof. unfold trim. rewrite trimStart_lower, trimEnd_lower. reflexivity. Qed.

(** X7.  The answer to a confirmation is read without regard to the white
    space around it and to the case of its letters. *)
Theorem confirm_ignores_padding_and_case (pre answer post : string) :
  all_space pre = true -> all_space post = true ->
  confirm (pre ++ answer ++ post) = confirm answer
  /\ confirm (toLowerCase answer) = confirm answer.
Proof.
  intros Hpre Hpost. unfold confirm. split.
  - rewrite trim_padding by assumption. reflexivity.
  - rewrite trim_lower, toLowerCase_idem. reflexivity.
Qed.

Lemma confirm_ignores_padding_and_case_witness :
  confirm ("  " ++ "No" ++ " ") = confirm "No"
  /\ confirm (toLowerCase "No") = confirm "No".
Proof.
  apply (confirm_ignores_padding_and_case "  " "No" " "); reflexivity.
Defined.

End PromptMore.

(* ================================================================== *)
(** * Further properties of the backups *)
(* ================================================================== *)

Module BackupMore.

Import BackupManager BackupFacts.

Local Open Scope nat_scope.

Lemma two_digits (n : nat) :
  n < 100 -> n = 10 * ((n / 10) mod 10) + n mod 10.
Proof.
  intros Hn.
  pose proof (Nat.div_mod_eq n 10) as H1.
  assert (H2 : n / 10 < 10) by (apply Nat.Div0.div_lt_upper_bound; lia).
  rewrite (Nat.mod_small _ _ H2). lia.
Qed.

Lemma four_digits (n : nat) :
  n < 100 * 100 ->
  n = 1000 * ((n / 1000) mod 10) + 100 * ((n / 100) mod 10)
      + 10 * ((n / 10) mod 10) + n mod 10.
Proof.
  intros Hn.
  pose proof (Nat.div_mod_eq n 10) as H1.
  pose proof (Nat.div_mod_eq (n / 10) 10) as H2.
  pose proof (Nat.div_mod_eq (n / 100) 10) as H3.
  rewrite Nat.Div0.div_div in H2. change (10 * 10) with 100 in H2.
  rewrite Nat.Div0.div_div in H3. change (100 * 10) with 1000 in H3.
  assert (H4 : n / 1000 < 10) by (apply Nat.Div0.div_lt_upper_bound; lia).
  rewrite (Nat.mod_small _ _ H4). lia.
Qed.

Ltac fold_divisions :=
  repeat match goal with
    | H : context [fst (Nat.divmod ?x 9 0 9)] |- _ =>
        change (fst (Nat.divmod x 9 0 9)) with (x / 10) in H
    | H : context [fst (Nat.divmod ?x 99 0 99)] |- _ =>
        change (fst (Nat.divmod x 99 0 99)) with (x / 100) in H
    | H : context [fst (Nat.divmod ?x 999 0 999)] |- _ =>
        change (fst (Nat.divmod x 999 0 999)) with (x / 1000) in H
    end.

Lemma filename_fields (d1 d2 : Date) :
  valid d1 -> valid d2 -> filename d1 = filename d2 ->
  year d1 = year d2 /\ month d1 = month d2 /\ day d1 = day d2
  /\ hours d1 = hours d2 /\ minutes d1 = minutes d2
  /\ seconds d1 = seconds d2 /\ milliseconds d1 = milliseconds d2.
Proof.
  intros (Hy1 & Hmo1 & Hd1 & Hh1 & Hmi1 & Hs1 & Hms1)
         (Hy2 & Hmo2 & Hd2 & Hh2 & Hmi2 & Hs2 & Hms2) E.
  unfold filename in E. rewrite !timestamp_shape in E.
  unfold pad4, pad3, pad2 in E. cbn [append] in E.
  injection E.
  intros Ems0 Ems1 Ems2 Es0 Es1 Emi0 Emi1 Eh0 Eh1 Ed0 Ed1 Emo0 Emo1
         Ey0 Ey1 Ey2 Ey3.
  apply digit_inj in Ems0, Ems1, Ems2, Es0, Es1, Emi0, Emi1, Eh0, Eh1,
    Ed0, Ed1, Emo0, Emo1, Ey0, Ey1, Ey2, Ey3.
  fold_divisions.
  repeat split.
  - rewrite (four_digits _ Hy1), (four_digits _ Hy2), Ey0, Ey1, Ey2, Ey3.
    reflexivity.
  - rewrite (two_digits _ Hmo1), (two_digits _ Hmo2), Emo0, Emo1. reflexivity.
  - rewrite (two_digits _ Hd1), (two_digits _ Hd2), Ed0, Ed1. reflexivity.
  - rewrite (two_digits _ Hh1), (two_digits _ Hh2), Eh0, Eh1. reflexivity.
  - rewrite (two_digits _ Hmi1), (two_digits _ Hmi2), Emi0, Emi1. reflexivity.
  - rewrite (two_digits _ Hs1), (two_digits _ Hs2), Es0, Es1. reflexivity.
  - rewrite (three_digits _ Hms1), (three_digits _ Hms2), Ems0, Ems1, Ems2.
    reflexivity.
Qed.

(** X8.  Two instants that differ, be it by a millisecond, are backed up
    under different names. *)
Theorem filename_injective (d1 d2 : Date) :
  valid d1 -> valid d2 -> d1 <> d2 -> filename d1 <> filename d2.
Proof.
  intros H1 H2 Hne E. apply Hne.
  destruct (filename_fields d1 d2 H1 H2 E) as (? & ? & ? & ? & ? & ? & ?).
  destruct d1, d2. simpl in *. subst. reflexivity.
Qed.

Lemma filename_injective_witness : filename capture1 <> filename capture2.
Proof.
  apply (filename_injective capture1 capture2);
    [unfold valid; simpl; repeat split; lia
    |unfold valid; simpl; repeat split; lia
    |discriminate].
Defined.

Lemma readFile_writeFile {S : Type} (fs : Dir S) (p : string) (c : Backup S) :
  readFile (writeFile fs p c) p = Some c.
Proof.
  induction fs as [|[q c'] fs IH]; simpl.
  - rewrite String.eqb_refl. reflexivity.
  - destruct (String.eqb_spec q p) as [->|Hne]; simpl.
    + rewrite String.eqb_refl. reflexivity.
    + destruct (String.eqb_spec q p); [contradiction | exact IH].
Qed.

Lemma readFile_writeFile_other {S : Type} (fs : Dir S) (p q : string)
      (c : Backup S) :
  q <> p -> readFile (writeFile fs p c) q = readFile fs q.
Proof.
  intros Hne. induction fs as [|[r c'] fs IH]; simpl.
  - destruct (String.eqb_spec p q); [congruence | reflexivity].
  - destruct (String.eqb_spec r p) as [->|Hrp]; simpl.
    + destruct (String.eqb_spec p q); [congruence | reflexivity].
    + destruct (String.eqb_spec r q); [reflexivity | exact IH].
Qed.

Lemma writeFile_existing_length {S : Type} (fs : Dir S) (p : string)
      (c c' : Backup S) :
  readFile fs p = Some c' ->
  List.length (writeFile fs p c) = List.length fs.
Proof.
  induction fs as [|[q c0] fs IH]; simpl; [discriminate|].
  destruct (String.eqb_spec q p); simpl; [reflexivity|].
  intros H. rewrite (IH H). reflexivity.
Qed.


Lemma digit_compare (a b : nat) :
  Ascii.compare (digit a) (digit b) = Nat.compare (a mod 10) (b mod 10).
Proof.
  destruct (digit_cases a) as (k & Hk & -> & ->).
  destruct (digit_cases b) as (l & Hl & -> & ->).
  do 10 (destruct k as [|k];
         [do 10 (destruct l as [|l]; [reflexivity|]); lia|]).
  lia.
Qed.

Lemma compare_digit (a b : nat) (s t : string) :
  String.compare (String (digit a) s) (String (digit b) t)
  = then_compare (Nat.compare (a mod 10) (b mod 10)) (String.compare s t).
Proof.
  cbn [String.compare]. rewrite digit_compare.
  destruct (Nat.compare _ _); reflexivity.
Qed.

Lemma compare_same_char (c : ascii) (s t : string) :
  String.compare (String c s) (String c t) = String.compare s t.
Proof.
  cbn [String.compare]. unfold Ascii.compare. rewrite N.compare_refl.
  reflexivity.
Qed.

Lemma mod_10_bound (n : nat) : n mod 10 < 10.
Proof. apply Nat.mod_upper_bound. discriminate. Qed.

Lemma lex2 (a b : nat) (rest : comparison) :
  a < 100 -> b < 100 ->
  then_compare (Nat.compare ((a / 10) mod 10) ((b / 10) mod 10))
    (then_compare (Nat.compare (a mod 10) (b mod 10)) rest)
  = then_compare (Nat.compare a b) rest.
Proof.
  intros Ha Hb.
  pose proof (two_digits a Ha) as Ea. pose proof (two_digits b Hb) as Eb.
  pose proof (mod_10_bound a). pose proof (mod_10_bound b).
  destruct (Nat.compare_spec ((a / 10) mod 10) ((b / 10) mod 10));
    destruct (Nat.compare_spec (a mod 10) (b mod 10));
    destruct (Nat.compare_spec a b); simpl; try reflexivity; lia.
Qed.

Lemma lex3 (a b : nat) (rest : comparison) :
  a < 1000 -> b < 1000 ->
  then_compare (Nat.compare ((a / 100) mod 10) ((b / 100) mod 10))
    (then_compare (Nat.compare ((a / 10) mod 10) ((b / 10) mod 10))
       (then_compare (Nat.compare (a mod 10) (b mod 10)) rest))
  = then_compare (Nat.compare a b) rest.
Proof.
  intros Ha Hb.
  pose proof (three_digits a Ha) as Ea. pose proof (three_digits b Hb) as Eb.
  pose proof (mod_10_bound a). pose proof (mod_10_bound b).
  pose proof (mod_10_bound (a / 10)). pose proof (mod_10_bound (b / 10)).
  destruct (Nat.compare_spec ((a / 100) mod 10) ((b / 100) mod 10));
    destruct (Nat.compare_spec ((a / 10) mod 10) ((b / 10) mod 10));
    destruct (Nat.compare_spec (a mod 10) (b mod 10));
    destruct (Nat.compare_spec a b); simpl; try reflexivity; lia.
Qed.

Lemma lex4 (a b : nat) (rest : comparison) :
  a < 100 * 100 -> b < 100 * 100 ->
  then_compare (Nat.compare ((a / 1000) mod 10) ((b / 1000) mod 10))
    (then_compare (Nat.compare ((a / 100) mod 10) ((b / 100) mod 10))
       (then_compare (Nat.compare ((a / 10) mod 10) ((b / 10) mod 10))
          (then_compare (Nat.compare (a mod 10) (b mod 10)) rest)))
  = then_compare (Nat.compare a b) rest.
Proof.
  intros Ha Hb.
  pose proof (four_digits a Ha) as Ea. pose proof (four_digits b Hb) as Eb.
  pose proof (mod_10_bound a). pose proof (mod_10_bound b).
  pose proof (mod_10_bound (a / 10)). pose proof (mod_10_bound (b / 10)).
  pose proof (mod_10_bound (a / 100)). pose proof (mod_10_bound (b / 100)).
  destruct (Nat.compare_spec ((a / 1000) mod 10) ((b / 1000) mod 10));
    destruct (Nat.compare_spec ((a / 100) mod 10) ((b / 100) mod 10));
    destruct (Nat.compare_spec ((a / 10) mod 10) ((b / 10) mod 10));
    destruct (Nat.compare_spec (a mod 10) (b mod 10));
    destruct (Nat.compare_spec a b); simpl; try reflexivity; lia.
Qed.

Lemma filename_compare (d1 d2 : Date) :
  valid d1 -> valid d2 ->
  String.compare (filename d1) (filename d2) = date_compare d1 d2.
Proof.
  intros (Hy1 & Hmo1 & Hd1 & Hh1 & Hmi1 & Hs1 & Hms1)
         (Hy2 & Hmo2 & Hd2 & Hh2 & Hmi2 & Hs2 & Hms2).
  unfold filename. rewrite !timestamp_shape.
  unfold pad4, pad3, pad2. cbn [append].
  rewrite ?compare_same_char, ?compare_digit.
  repeat (rewrite ?compare_same_char; rewrite ?compare_digit).
  unfold date_compare.
  rewrite <- (lex4 (year d1) (year d2)) by assumption.
  rewrite <- (lex2 (month d1) (month d2)) by assumption.
  rewrite <- (lex2 (day d1) (day d2)) by assumption.
  rewrite <- (lex2 (hours d1) (hours d2)) by assumption.
  rewrite <- (lex2 (minutes d1) (minutes d2)) by assumption.
  rewrite <- (lex2 (seconds d1) (seconds d2)) by assumption.
  replace (Nat.compare (milliseconds d1) (milliseconds d2))
    with (then_compare (Nat.compare (milliseconds d1) (milliseconds d2)) Eq)
    by (destruct (Nat.compare (milliseconds d1) (milliseconds d2));
        reflexivity).
  rewrite <- (lex3 (milliseconds d1) (milliseconds d2) Eq) by assumption.
  reflexivity.
Qed.

(** X10.  The names of two backups compare as strings the way their
    instants compare in time: the name of the earlier backup is the smaller
    one, and names are equal only for equal instants. *)
Theorem filename_order (d1 d2 : Date) :
  valid d1 -> valid d2 ->
  String.compare (filename d1) (filename d2) = date_compare d1 d2
  /\ (String.ltb (filename d1) (filename d2) = true
      <-> date_compare d1 d2 = Lt).
Proof.
  intros H1 H2. pose proof (filename_compare d1 d2 H1 H2) as E.
  split; [exact E|].
  unfold String.ltb. rewrite E.
  destruct (date_compare d1 d2); split; congruence.
Qed.

Lemma filename_order_witness :
  String.compare (filename capture1) (filename capture2)
  = date_compare capture1 capture2
  /\ (String.ltb (filename capture1) (filename capture2) = true
      <-> date_compare capture1 capture2 = Lt).
Proof.
  apply (filename_order capture1 capture2);
    unfold valid; simpl; repeat split; lia.
Defined.

End BackupMore.

(* ================================================================== *)
(** * The listing of the backups *)
(* ================================================================== *)

Module ListingFacts.

Import BackupManager BackupFacts BackupMore BackupListing.

Local Open Scope list_scope.

Lemma leb_trans (s t u : string) :
  String.leb s t = true -> String.leb t u = true -> String.leb s u = true.
Proof.
  unfold String.leb.
  revert t u. induction s as [|a s IH]; intros [|b t] [|c u];
    simpl; try easy.
  unfold Ascii.compare.
  destruct (N.compare_spec (N_of_ascii a) (N_of_ascii b)) as [Eab|Lab|Gab];
    destruct (N.compare_spec (N_of_ascii b) (N_of_ascii c)) as [Ebc|Lbc|Gbc];
    destruct (N.compare_spec (N_of_ascii a) (N_of_ascii c)) as [Eac|Lac|Gac];
    try easy; try lia.
  apply IH.
Qed.

Lemma insert_perm (x : string) (l : list string) :
  Permutation (x :: l) (insert x l).
Proof.
  induction l as [|y l IH]; simpl; [reflexivity|].
  destruct (String.leb x y); [reflexivity|].
  rewrite perm_swap. constructor. exact IH.
Qed.

Lemma sort_perm (l : list string) : Permutation l (sort l).
Proof.
  induction l as [|x l IH]; simpl; [reflexivity|].
  rewrite <- insert_perm. constructor. exact IH.
Qed.

Lemma insert_ascending (x : string) (l : list string) :
  ascending l -> ascending (insert x l).
Proof.
  unfold ascending. induction 1 as [|y l Hl IH Hy]; simpl.
  - repeat constructor.
  - destruct (String.leb x y) eqn:E.
    + constructor; [constructor; assumption|].
      constructor; [exact E|].
      eapply Forall_impl; [|exact Hy]. intros z Hz.
      eapply leb_trans; eassumption.
    + constructor; [exact IH|].
      eapply Permutation_Forall; [apply insert_perm|].
      constructor; [|exact Hy].
      destruct (String.leb_total x y) as [H|H]; [congruence | exact H].
Qed.

Lemma sort_ascending (l : list string) : ascending (sort l).
Proof.
  induction l as [|x l IH]; simpl; [constructor | apply insert_ascending, IH].
Qed.

(** In an ascending list, the smaller of two members comes first. *)
Lemma ascending_split (l : list string) (x y : string) :
  ascending l -> In x l -> In y l -> String.compare x y = Lt ->
  exists l1 l2 l3, l = l1 ++ x :: l2 ++ y :: l3.
Proof.
  unfold ascending. induction 1 as [|h l Hl IH Hh]; intros Hx Hy Hlt;
    [destruct Hx|].
  assert (Hne : x <> y).
  { intros ->. pose proof (String.compare_antisym y y) as Hs.
    destruct (String.compare y y); simpl in Hs; discriminate. }
  destruct Hx as [->|Hx].
  - destruct Hy as [->|Hy]; [contradiction|].
    apply in_split in Hy. destruct Hy as (l2 & l3 & ->).
    exists [], l2, l3. reflexivity.
  - destruct Hy as [->|Hy].
    + rewrite Forall_forall in Hh. specialize (Hh x Hx).
      unfold String.leb in Hh. rewrite String.compare_antisym, Hlt in Hh.
      discriminate.
    + destruct (IH Hx Hy Hlt) as (l1 & l2 & l3 & ->).
      exists (h :: l1), l2, l3. reflexivity.
Qed.

Lemma endsWith_app (suffix s : string) : endsWith suffix (s ++ suffix) = true.
Proof.
  induction s as [|c s IH]; cbn [append].
  - destruct suffix; cbn [endsWith]; rewrite String.eqb_refl; reflexivity.
  - cbn [endsWith]. rewrite IH. destruct (String.eqb _ _); reflexivity.
Qed.

Lemma prefix_app (p s : string) : String.prefix p (p ++ s) = true.
Proof.
  induction p as [|c p IH]; [destruct s; reflexivity|].
  cbn [append String.prefix].
  destruct (ascii_dec c c) as [_|Hne]; [exact IH | contradiction].
Qed.

Lemma filename_is_backup_name (d : Date) : is_backup_name (filename d) = true.
Proof.
  unfold is_backup_name, filename. apply andb_true_iff. split.
  - apply prefix_app.
  - change ("backup-" ++ timestamp d ++ ".json")%string
      with (("backup-" ++ timestamp d) ++ ".json")%string.
    apply endsWith_app.
Qed.

Lemma compare_common_prefix (p s t : string) :
  String.compare (p ++ s) (p ++ t) = String.compare s t.
Proof.
  induction p as [|c p IH]; [reflexivity|].
  cbn [append]. rewrite compare_same_char. exact IH.
Qed.




End ListingFacts.

(* ================================================================== *)
(** * Properties of the services *)
(* ================================================================== *)

Module ServiceFacts.

Local Open Scope list_scope.

Ltac same_run :=
  cbn [sent asked results rev app];
  rewrite <- ?app_assoc; rewrite ?BackupFacts.append_assoc;
  cbn [app]; reflexivity.

Lemma setActionVariable_run (env : Env) (name : string) (v : value)
        (w : World) :
  setActionVariable env name v w =
    (outcome env (variable_requests env name v)
             ("Failed to set variable " ++ name ++ ": "),
     after w (variable_requests env name v)).
Proof.
  unfold setActionVariable, variable_requests, outcome, last_rejection, after,
    try_catch, bind, request, throw, ret.
  fold (stringValue env v).
  destruct (octokit env (actions_getOrgVariable name)) as [e|data] eqn:Eget;
    cbn [sent asked results].
  - destruct (status_is e 404); cbn [rev app].
    + destruct (octokit env (actions_createOrgVariable name _ "all"))
        as [e'|d']; same_run.
    + rewrite Eget. same_run.
  - destruct (octokit env (actions_updateOrgVariable name _)) as [e|d] eqn:Eup;
      cbn [sent asked results].
    + destruct (status_is e 404); cbn [rev app].
      * destruct (octokit env (actions_createOrgVariable name _ "all"))
          as [e'|d']; same_run.
      * rewrite Eup. same_run.
    + cbn [rev app]. rewrite Eup. same_run.
Qed.




Lemma resolveLoop_resolvable (env : Env) (actors : list Actor) :
  existsb (lookup_fails env) actors = false ->
  forall (acc : list Actor) (w : World),
    resolveLoop env actors acc w =
      (inr (acc ++ map (resolved env) actors),
       after w (actor_lookups actors)).
Proof.
  unfold after.
  induction actors as [|a actors IH]; intros H acc w.
  - simpl. rewrite !app_nil_r. destruct w. reflexivity.
  - simpl in H. apply orb_false_iff in H. destruct H as [Ha H].
    unfold lookup_fails, rejected in Ha.
    cbn [resolveLoop actor_lookups flat_map map].
    unfold bind, resolveActor, resolved.
    destruct (team_reference a) as [t|].
    + unfold try_catch, getTeamId, try_catch, bind, request, ret.
      destruct (octokit env (teams_getByName t)) as [e|data];
        [discriminate|].
      rewrite (IH H). cbn [sent asked results app].
      rewrite <- !app_assoc. reflexivity.
    + unfold ret. rewrite (IH H). cbn [app].
      rewrite <- !app_assoc. reflexivity.
Qed.



Lemma processRuleset_resolvable (env : Env) (r : Ruleset) (w : World) :
  existsb (lookup_fails env) (declared_actors r) = false ->
  processRuleset env r w =
    (inr (resolved_ruleset env r),
     after w (actor_lookups (declared_actors r))).
Proof.
  unfold processRuleset, resolved_ruleset, declared_actors, after.
  destruct (bypass_actors r) as [actors|]; intros H.
  - unfold bind, resolveBypassActors.
    rewrite resolveLoop_resolvable by exact H. reflexivity.
  - simpl. rewrite app_nil_r. destruct w. reflexivity.
Qed.



End ServiceFacts.

(* ================================================================== *)
(** * Properties of the loops *)
(* ================================================================== *)

Module LoopFacts.

Import RunFacts.

Local Open Scope list_scope.

Lemma for_of_returns {A} (body : A -> M unit) (l : list A) :
  (forall x w, exists w', body x w = (inr tt, w')) ->
  forall w, exists w', for_of l body w = (inr tt, w').
Proof.
  intros Hbody. induction l as [|x l IH]; intros w; simpl.
  - unfold ret. eauto.
  - unfold bind. destruct (Hbody x w) as [w1 ->]. apply IH.
Qed.

(** A step that keeps a relation between the states, reflexive and
    transitive, is kept by the loop. *)
Lemma for_of_invariant {A} (R : World -> World -> Prop)
      (body : A -> M unit) (l : list A) :
  (forall w, R w w) ->
  (forall w1 w2 w3, R w1 w2 -> R w2 w3 -> R w1 w3) ->
  (forall x w, exists w', body x w = (inr tt, w') /\ R w w') ->
  forall w, exists w', for_of l body w = (inr tt, w') /\ R w w'.
Proof.
  intros Hrefl Htrans Hbody. induction l as [|x l IH]; intros w; simpl.
  - unfold ret. eauto.
  - unfold bind. destruct (Hbody x w) as (w1 & -> & H1).
    destruct (IH w1) as (w2 & -> & H2). eauto.
Qed.

Lemma configure_variable_returns (env : Env) (c : Change) (w : World) :
  exists w', configure_variable env c w = (inr tt, w').
Proof.
  unfold configure_variable, bind, confirmChange, confirm.
  destruct (isEqual _ _); [unfold ret; eauto|].
  destruct (PromptManager.confirm _);
    first [apply try_catch_recorded | unfold push_skipped; eauto].
Qed.

Lemma configure_secret_returns (env : Env) (c : Change) (w : World) :
  exists w', configure_secret env c w = (inr tt, w').
Proof.
  unfold configure_secret, bind, confirmChange, confirm.
  destruct (_ && _); [unfold ret; eauto|].
  destruct (PromptManager.confirm _);
    first [apply try_catch_recorded | unfold push_skipped; eauto].
Qed.

Lemma configure_privilege_returns (env : Env) (c : Change) (w : World) :
  exists w', configure_privilege env c w = (inr tt, w').
Proof.
  unfold configure_privilege, bind, confirmChange, confirm.
  destruct (isEqual _ _); [unfold ret; eauto|].
  destruct (PromptManager.confirm _);
    first [apply try_catch_recorded | unfold push_skipped; eauto].
Qed.

Lemma restore_variable_returns (env : Env) (c : Change) (w : World) :
  exists w', restore_variable env c w = (inr tt, w').
Proof.
  unfold restore_variable, bind, confirmChange, confirm.
  destruct (PromptManager.confirm _);
    first [apply try_catch_recorded | unfold push_skipped; eauto].
Qed.

Lemma restore_privilege_returns (env : Env) (c : Change) (w : World) :
  exists w', restore_privilege env c w = (inr tt, w').
Proof.
  unfold restore_privilege, bind, confirmChange, confirm.
  destruct (PromptManager.confirm _);
    first [apply try_catch_recorded | unfold push_skipped; eauto].
Qed.

Lemma restore_secret_returns (env : Env) (file : object) (name : string)
      (w : World) :
  exists w', restore_secret env file name w = (inr tt, w').
Proof.
  unfold restore_secret, bind, confirm.
  destruct (truthy _); [|unfold push_skipped; eauto].
  destruct (PromptManager.confirm _);
    first [apply try_catch_recorded | unfold push_skipped; eauto].
Qed.

Lemma restore_secrets_returns (env : Env) (secretsFile : Error + object)
      (names : list string) (w : World) :
  exists w', restore_secrets env secretsFile names w = (inr tt, w').
Proof.
  unfold restore_secrets, try_catch, bind.
  destruct secretsFile as [e|file]; [unfold throw, ret; eauto|].
  unfold ret.
  destruct (for_of_returns (restore_secret env file) names
              (restore_secret_returns env file) w) as [w' ->].
  eauto.
Qed.


(** ** What the service methods leave alone *)

Lemma only_sends_ret {A} (a : A) : only_sends (ret a).
Proof. intros w. split; reflexivity. Qed.

Lemma only_sends_throw {A} (e : Error) : only_sends (@throw A e).
Proof. intros w. split; reflexivity. Qed.

Lemma only_sends_request (env : Env) (c : call) : only_sends (request env c).
Proof. intros w. split; reflexivity. Qed.

Lemma only_sends_bind {A B} (m : M A) (f : A -> M B) :
  only_sends m -> (forall a, only_sends (f a)) -> only_sends (bind m f).
Proof.
  intros Hm Hf w. unfold bind. specialize (Hm w).
  destruct (m w) as [[e|a] w1]; cbn [snd] in *; [exact Hm|].
  destruct (Hf a w1) as [H1 H2]. destruct Hm as [H3 H4].
  split; congruence.
Qed.

Lemma only_sends_try_catch {A} (m : M A) (h : Error -> M A) :
  only_sends m -> (forall e, only_sends (h e)) -> only_sends (try_catch m h).
Proof.
  intros Hm Hh w. unfold try_catch. specialize (Hm w).
  destruct (m w) as [[e|a] w1]; cbn [snd] in *; [|exact Hm].
  destruct (Hh e w1) as [H1 H2]. destruct Hm as [H3 H4].
  split; congruence.
Qed.

Ltac only_sends_steps :=
  repeat first
    [ apply only_sends_try_catch
    | apply only_sends_bind
    | apply only_sends_request
    | apply only_sends_ret
    | apply only_sends_throw
    | intro ].

Lemma only_sends_setActionVariable (env : Env) (name : string) (v : value) :
  only_sends (setActionVariable env name v).
Proof.
  unfold setActionVariable. only_sends_steps.
  destruct (status_is _ 404); only_sends_steps.
Qed.

Lemma only_sends_setActionSecret (env : Env) (name : string) (v : value) :
  only_sends (setActionSecret env name v).
Proof. unfold setActionSecret. only_sends_steps. Qed.

Lemma only_sends_updateMemberPrivileges (env : Env) (settings : object) :
  only_sends (updateMemberPrivileges env settings).
Proof. unfold updateMemberPrivileges. only_sends_steps. Qed.

Lemma only_sends_resolveLoop (env : Env) (actors : list Actor) :
  forall acc, only_sends (resolveLoop env actors acc).
Proof.
  induction actors as [|a actors IH]; intros acc; cbn [resolveLoop].
  - apply only_sends_ret.
  - apply only_sends_bind; [|intros; apply IH].
    unfold resolveActor. destruct (team_reference a); [|apply only_sends_ret].
    unfold getTeamId. only_sends_steps.
Qed.

Lemma only_sends_processRuleset (env : Env) (r : Ruleset) :
  only_sends (processRuleset env r).
Proof.
  unfold processRuleset. destruct (bypass_actors r); [|apply only_sends_ret].
  apply only_sends_bind; [apply only_sends_resolveLoop|].
  intros; apply only_sends_ret.
Qed.

Lemma only_sends_createBranchRuleset (env : Env) (r : Ruleset) :
  only_sends (createBranchRuleset env r).
Proof.
  unfold createBranchRuleset.
  apply only_sends_try_catch; [|intros; apply only_sends_throw].
  apply only_sends_bind; [apply only_sends_processRuleset|].
  only_sends_steps.
Qed.

Lemma only_sends_updateBranchRuleset (env : Env) (id : value) (r : Ruleset) :
  only_sends (updateBranchRuleset env id r).
Proof.
  unfold updateBranchRuleset.
  apply only_sends_try_catch; [|intros; apply only_sends_throw].
  apply only_sends_bind; [apply only_sends_processRuleset|].
  only_sends_steps.
Qed.

(** One confirmed change: the method is called and one outcome recorded,
    as successful or as failed. *)
Lemma apply_step (m : M unit) (done : string) (entry : Error -> string)
      (w : World) :
  only_sends m ->
  exists w',
    try_catch (bind m (fun _ => push_successful done))
              (fun e => push_failed (entry e)) w = (inr tt, w')
    /\ asked w' = asked w /\ outcomes w' = outcomes w + 1.
Proof.
  intros Hm. unfold try_catch, bind, outcomes. destruct (Hm w) as [Ha Hr].
  destruct (m w) as [[e|[]] w1]; cbn [snd] in *.
  - eexists. split; [reflexivity|]. cbn [asked results failed successful skipped].
    rewrite Hr, length_app. cbn [List.length]. split; [exact Ha | lia].
  - eexists. split; [reflexivity|]. cbn [asked results failed successful skipped].
    rewrite Hr, length_app. cbn [List.length]. split; [exact Ha | lia].
Qed.

(** ** Declining *)

Lemma untouched_refl (w : World) : untouched w w.
Proof. repeat split. Qed.

Lemma untouched_trans (w1 w2 w3 : World) :
  untouched w1 w2 -> untouched w2 w3 -> untouched w1 w3.
Proof.
  unfold untouched. intros (A1 & B1 & C1) (A2 & B2 & C2).
  repeat split; congruence.
Qed.

Ltac declined H w :=
  unfold bind, confirmChange, confirm; rewrite (H (List.length (asked w)));
  unfold push_skipped; eexists; split; [reflexivity | repeat split].

Lemma configure_variable_declined (env : Env) (c : Change) (w : World) :
  declines_all env ->
  exists w', configure_variable env c w = (inr tt, w') /\ untouched w w'.
Proof.
  intros H. unfold configure_variable.
  destruct (isEqual _ _);
    [exists w; split; [reflexivity | apply untouched_refl] | declined H w].
Qed.

Lemma configure_secret_declined (env : Env) (c : Change) (w : World) :
  declines_all env ->
  exists w', configure_secret env c w = (inr tt, w') /\ untouched w w'.
Proof.
  intros H. unfold configure_secret.
  destruct (_ && _);
    [exists w; split; [reflexivity | apply untouched_refl] | declined H w].
Qed.

Lemma configure_privilege_declined (env : Env) (c : Change) (w : World) :
  declines_all env ->
  exists w', configure_privilege env c w = (inr tt, w') /\ untouched w w'.
Proof.
  intros H. unfold configure_privilege.
  destruct (isEqual _ _);
    [exists w; split; [reflexivity | apply untouched_refl] | declined H w].
Qed.

Lemma configure_ruleset_declined (env : Env) (cur : list value) (r : Ruleset)
      (w : World) :
  declines_all env ->
  exists w', configure_ruleset env cur r w = (inr tt, w') /\ untouched w w'.
Proof.
  intros H. unfold configure_ruleset. destruct (find _ cur); declined H w.
Qed.

Lemma configure_team_declined (env : Env) (cur : list value) (t : Team)
      (w : World) :
  declines_all env ->
  exists w', configure_team env cur t w = (inr tt, w') /\ untouched w w'.
Proof.
  intros H. unfold configure_team. destruct (find _ cur); declined H w.
Qed.

Lemma restore_variable_declined (env : Env) (c : Change) (w : World) :
  declines_all env ->
  exists w', restore_variable env c w = (inr tt, w') /\ untouched w w'.
Proof. intros H. unfold restore_variable. declined H w. Qed.

Lemma restore_privilege_declined (env : Env) (c : Change) (w : World) :
  declines_all env ->
  exists w', restore_privilege env c w = (inr tt, w') /\ untouched w w'.
Proof. intros H. unfold restore_privilege. declined H w. Qed.

Lemma restore_secret_declined (env : Env) (file : object) (name : string)
      (w : World) :
  declines_all env ->
  exists w', restore_secret env file name w = (inr tt, w') /\ untouched w w'.
Proof.
  intros H. unfold restore_secret. destruct (truthy _).
  - declined H w.
  - unfold push_skipped. eexists. split; [reflexivity | repeat split].
Qed.

Ltac quiet_loop body_declined :=
  apply (for_of_invariant untouched);
  [apply untouched_refl | apply untouched_trans | intros; apply body_declined;
   assumption].

(** X18.  When the user declines every question, configuration and restore
    send nothing to the platform and record nothing as successful or as
    failed. *)
Theorem declining_sends_nothing (env : Env) (w : World)
        (current desired : object) (names : list string)
        (currentRulesets currentTeams : list value)
        (desiredRulesets : list Ruleset) (desiredTeams : list Team)
        (backup live : Settings) (secretsFile : Error + object) :
  declines_all env ->
  untouched w (snd (configure_variables env current desired w))
  /\ untouched w (snd (configure_secrets env names desired w))
  /\ untouched w (snd (configure_privileges env current desired w))
  /\ untouched w (snd (configure_rulesets env currentRulesets desiredRulesets w))
  /\ untouched w (snd (configure_teams env currentTeams desiredTeams w))
  /\ untouched w (snd (restore_org env backup live secretsFile w)).
Proof.
  intros H.
  assert (Hv : forall l w0, exists w', for_of l (configure_variable env) w0
                                       = (inr tt, w') /\ untouched w0 w')
    by (intros l; quiet_loop configure_variable_declined).
  assert (Hs : forall l w0, exists w', for_of l (configure_secret env) w0
                                       = (inr tt, w') /\ untouched w0 w')
    by (intros l; quiet_loop configure_secret_declined).
  assert (Hp : forall l w0, exists w', for_of l (configure_privilege env) w0
                                       = (inr tt, w') /\ untouched w0 w')
    by (intros l; quiet_loop configure_privilege_declined).
  assert (Hr : forall l w0,
             exists w', for_of l (configure_ruleset env currentRulesets) w0
                        = (inr tt, w') /\ untouched w0 w')
    by (intros l; quiet_loop configure_ruleset_declined).
  assert (Ht : forall l w0,
             exists w', for_of l (configure_team env currentTeams) w0
                        = (inr tt, w') /\ untouched w0 w')
    by (intros l; quiet_loop configure_team_declined).
  assert (Hrv : forall l w0, exists w', for_of l (restore_variable env) w0
                                        = (inr tt, w') /\ untouched w0 w')
    by (intros l; quiet_loop restore_variable_declined).
  assert (Hrp : forall l w0, exists w', for_of l (restore_privilege env) w0
                                        = (inr tt, w') /\ untouched w0 w')
    by (intros l; quiet_loop restore_privilege_declined).
  assert (Hrs : forall file l w0,
             exists w', for_of l (restore_secret env file) w0
                        = (inr tt, w') /\ untouched w0 w')
    by (intros file l; quiet_loop restore_secret_declined).
  unfold configure_variables, configure_secrets, configure_privileges,
    configure_rulesets, configure_teams.
  split; [destruct (Hv (compare current desired) w) as (w' & -> & U);
          exact U|].
  split; [destruct (Hs (compare (mask_secrets names) desired) w)
            as (w' & -> & U); exact U|].
  split; [destruct (Hp (compare current desired) w) as (w' & -> & U);
          exact U|].
  split; [destruct (Hr desiredRulesets w) as (w' & -> & U); exact U|].
  split; [destruct (Ht desiredTeams w) as (w' & -> & U); exact U|].
  unfold restore_org, bind, restore_variables, restore_privileges.
  destruct (Hrv (compare (actionVariables live) (actionVariables backup)) w)
    as (w1 & -> & U1).
  assert (Hsec : exists w2,
             restore_secrets env secretsFile (actionSecrets backup) w1
             = (inr tt, w2) /\ untouched w1 w2).
  { unfold restore_secrets, try_catch, bind.
    destruct secretsFile as [e|file].
    - exists w1. split; [reflexivity | apply untouched_refl].
    - unfold ret. destruct (Hrs file (actionSecrets backup) w1)
        as (w2 & -> & U2). exists w2. split; [reflexivity | exact U2]. }
  destruct Hsec as (w2 & -> & U2).
  destruct (Hrp (compare (memberPrivileges live) (memberPrivileges backup)) w2)
    as (w3 & -> & U3).
  cbn [snd]. eapply untouched_trans; [|exact U3].
  eapply untouched_trans; eassumption.
Qed.

Lemma declining_sends_nothing_witness :
  untouched start (snd (configure_variables env_no [("A", VNum 5)]
                          [("A", VNum 1)] start))
  /\ untouched start (snd (configure_secrets env_no ["S"] [("A", VNum 1)]
                             start))
  /\ untouched start (snd (configure_privileges env_no [("A", VNum 5)]
                             [("A", VNum 1)] start))
  /\ untouched start (snd (configure_rulesets env_no [] [guarded] start))
  /\ untouched start (snd (configure_teams env_no [] [staff] start))
  /\ untouched start (snd (restore_org env_no backup_a1b2 live_a5 (inr [])
                             start)).
Proof.
  apply (declining_sends_nothing env_no start [("A", VNum 5)] [("A", VNum 1)]
           ["S"] [] [] [guarded] [staff] backup_a1b2 live_a5 (inr [])).
  intros n. reflexivity.
Defined.


(** ** Accounting *)

Lemma accounted_zero (w : World) : accounted 0 w w.
Proof. unfold accounted. split; lia. Qed.

Lemma accounted_add (n m : nat) (w1 w2 w3 : World) :
  accounted n w1 w2 -> accounted m w2 w3 -> accounted (n + m) w1 w3.
Proof. unfold accounted. intros [A1 B1] [A2 B2]. split; lia. Qed.

Lemma for_of_accounted {A} (asks : A -> bool) (body : A -> M unit)
      (l : list A) :
  (forall x w, exists w', body x w = (inr tt, w')
                          /\ accounted (if asks x then 1 else 0) w w') ->
  forall w, exists w', for_of l body w = (inr tt, w')
                       /\ accounted (List.length (filter asks l)) w w'.
Proof.
  intros Hbody. induction l as [|x l IH]; intros w; simpl.
  - exists w. split; [reflexivity | apply accounted_zero].
  - unfold bind. destruct (Hbody x w) as (w1 & -> & H1).
    destruct (IH w1) as (w2 & -> & H2). exists w2. split; [reflexivity|].
    destruct (asks x); simpl in *.
    + apply (accounted_add 1 _ _ _ _ H1 H2).
    + apply (accounted_add 0 _ _ _ _ H1 H2).
Qed.

(** After the question: the change is applied and recorded, or skipped. *)
Lemma asked_then_settled (env : Env) (question : string) (w : World)
      (applied declined : M unit) :
  (forall w0, exists w', applied w0 = (inr tt, w')
                         /\ asked w' = asked w0
                         /\ outcomes w' = outcomes w0 + 1) ->
  (forall w0, exists w', declined w0 = (inr tt, w')
                         /\ asked w' = asked w0
                         /\ outcomes w' = outcomes w0 + 1) ->
  exists w',
    bind (confirm env question)
         (fun confirmed => if confirmed then applied else declined) w
    = (inr tt, w')
    /\ accounted 1 w w'.
Proof.
  intros Ha Hd. unfold bind, confirm, accounted.
  destruct (PromptManager.confirm _).
  - destruct (Ha (mkWorld (asked w ++ [(question ++ " (Y/n) ")%string])
                          (sent w) (results w))) as (w' & -> & A & O).
    exists w'. split; [reflexivity|].
    unfold outcomes in *. cbn [asked results] in A, O.
    rewrite A, O, length_app. simpl. split; lia.
  - destruct (Hd (mkWorld (asked w ++ [(question ++ " (Y/n) ")%string])
                          (sent w) (results w))) as (w' & -> & A & O).
    exists w'. split; [reflexivity|].
    unfold outcomes in *. cbn [asked results] in A, O.
    rewrite A, O, length_app. simpl. split; lia.
Qed.

Lemma push_skipped_settles (entry : string) (w0 : World) :
  exists w', push_skipped entry w0 = (inr tt, w')
             /\ asked w' = asked w0 /\ outcomes w' = outcomes w0 + 1.
Proof.
  unfold push_skipped, outcomes. eexists. split; [reflexivity|].
  cbn [asked results successful failed skipped].
  rewrite length_app. simpl. split; [reflexivity | lia].
Qed.

Lemma configure_variable_accounted (env : Env) (c : Change) (w : World) :
  exists w', configure_variable env c w = (inr tt, w')
             /\ accounted (if differs c then 1 else 0) w w'.
Proof.
  unfold configure_variable, differs, confirmChange.
  destruct (isEqual _ _); simpl.
  - exists w. split; [reflexivity | apply accounted_zero].
  - apply asked_then_settled.
    + intros w0. apply apply_step. apply only_sends_setActionVariable.
    + intros w0. apply push_skipped_settles.
Qed.

Lemma configure_privilege_accounted (env : Env) (c : Change) (w : World) :
  exists w', configure_privilege env c w = (inr tt, w')
             /\ accounted (if differs c then 1 else 0) w w'.
Proof.
  unfold configure_privilege, differs, confirmChange.
  destruct (isEqual _ _); simpl.
  - exists w. split; [reflexivity | apply accounted_zero].
  - apply asked_then_settled.
    + intros w0. apply apply_step. apply only_sends_updateMemberPrivileges.
    + intros w0. apply push_skipped_settles.
Qed.

Lemma configure_secret_accounted (env : Env) (c : Change) (w : World) :
  exists w', configure_secret env c w = (inr tt, w')
             /\ accounted (if secret_asked c then 1 else 0) w w'.
Proof.
  unfold configure_secret, secret_asked, confirmChange.
  destruct (_ && _); cbn [negb].
  - exists w. split; [reflexivity | apply accounted_zero].
  - apply asked_then_settled.
    + intros w0. destruct (is_remove c); cbn [negb].
      * unfold try_catch.
        destruct (push_skipped_settles
                    ("Secret: " ++ key c ++ " (removal not automated)")%string
                    w0) as (w' & E & H).
        rewrite E. eauto.
      * apply apply_step. apply only_sends_setActionSecret.
    + intros w0. apply push_skipped_settles.
Qed.

Lemma configure_ruleset_accounted (env : Env) (cur : list value)
      (r : Ruleset) (w : World) :
  exists w', configure_ruleset env cur r w = (inr tt, w')
             /\ accounted 1 w w'.
Proof.
  unfold configure_ruleset. destruct (find _ cur).
  - apply asked_then_settled.
    + intros w0. apply apply_step. apply only_sends_updateBranchRuleset.
    + intros w0. apply push_skipped_settles.
  - apply asked_then_settled.
    + intros w0. apply apply_step. apply only_sends_createBranchRuleset.
    + intros w0. apply push_skipped_settles.
Qed.


(** ** Secrets *)

Lemma get_set (o : object) (k k' : string) (v : value) :
  get (set o k v) k' = if String.eqb k k' then v else get o k'.
Proof.
  induction o as [|[k0 v0] o IH]; simpl.
  - destruct (String.eqb k k'); reflexivity.
  - destruct (String.eqb_spec k0 k) as [->|Hne]; simpl.
    + destruct (String.eqb k k'); reflexivity.
    + rewrite IH. destruct (String.eqb_spec k0 k') as [->|Hne'].
      * destruct (String.eqb_spec k k'); [congruence | reflexivity].
      * reflexivity.
Qed.

Lemma keys_set (o : object) (k : string) (v : value) :
  keys (set o k v) = if has o k then keys o else keys o ++ [k].
Proof.
  unfold has, keys. induction o as [|[k0 v0] o IH]; simpl; [reflexivity|].
  destruct (String.eqb k0 k); simpl; [reflexivity|].
  rewrite IH. destruct (includes k (map fst o)); reflexivity.
Qed.

Lemma set_NoDup (o : object) (k : string) (v : value) :
  NoDup (keys o) -> NoDup (keys (set o k v)).
Proof.
  intros H. rewrite keys_set. destruct (has o k) eqn:E; [exact H|].
  apply includes_not_In in E.
  apply NoDup_app; [exact H | repeat constructor; intros [] |].
  intros x Hx [<-|[]]. contradiction.
Qed.

Lemma mask_secrets_spec (names : list string) :
  NoDup (keys (mask_secrets names))
  /\ forall n, get (mask_secrets names) n
               = if includes n names then VStr "***" else VUndefined.
Proof.
  unfold mask_secrets.
  assert (H : forall acc,
            NoDup (keys acc) ->
            NoDup (keys (fold_left (fun o name => set o name (VStr "***"))
                                   names acc))
            /\ forall n,
                 get (fold_left (fun o name => set o name (VStr "***"))
                                names acc) n
                 = if includes n names then VStr "***" else get acc n).
  { induction names as [|m names IH]; intros acc Hacc; simpl.
    - split; [exact Hacc | reflexivity].
    - destruct (IH (set acc m (VStr "***")) (set_NoDup _ _ _ Hacc))
        as [Hnd Hget].
      split; [exact Hnd|]. intros n. rewrite Hget, get_set.
      destruct (String.eqb m n), (includes n names); reflexivity. }
  destruct (H [] (NoDup_nil _)) as [Hnd Hget]. split; [exact Hnd|].
  intros n. rewrite Hget. reflexivity.
Qed.





(** ** Teams and removals *)



(** X28.  A variable that is no longer declared is not deleted: once the
    user confirms its removal, the loop of configuration and that of restore
    call [setActionVariable] with [undefined], which sends the text
    [undefined] as the new value of the variable. *)
Theorem removed_variable_is_overwritten (env : Env) (c : Change) (w : World) :
  newValue c = VUndefined ->
  currentValue c <> VUndefined ->
  PromptManager.confirm (stdin env (List.length (asked w))) = true ->
  sent (snd (configure_variable env c w))
  = sent w ++ variable_requests env (key c) VUndefined
  /\ sent (snd (restore_variable env c w))
     = sent w ++ variable_requests env (key c) VUndefined
  /\ stringValue env VUndefined = "undefined"%string.
Proof.
  intros Hnew Hcur Hyes.
  assert (Hrun : forall w0,
            sent (snd (try_catch
                         (bind (setActionVariable env (key c) VUndefined)
                               (fun _ => push_successful
                                           ("Variable: " ++ key c)%string))
                         (fun error => push_failed
                                         ("Variable: " ++ key c ++ " - "
                                          ++ message error)%string) w0))
            = sent w0 ++ variable_requests env (key c) VUndefined).
  { intros w0. unfold try_catch, bind.
    pose proof (ServiceFacts.setActionVariable_run env (key c) VUndefined w0)
      as E.
    destruct (setActionVariable env (key c) VUndefined w0) as [[e|[]] w1];
      injection E as _ ->; reflexivity. }
  split; [|split; [|reflexivity]].
  - unfold configure_variable. rewrite Hnew, isEqual_undefined_r.
    rewrite (is_undefined_false _ Hcur).
    unfold bind, confirmChange, confirm. rewrite Hyes, Hrun. reflexivity.
  - unfold restore_variable. rewrite Hnew.
    unfold bind, confirmChange, confirm. rewrite Hyes, Hrun. reflexivity.
Qed.

Lemma removed_variable_is_overwritten_witness :
  sent (snd (configure_variable env_yes removal_of_old_variable start))
  = sent start ++ variable_requests env_yes "OLD" VUndefined
  /\ sent (snd (restore_variable env_yes removal_of_old_variable start))
     = sent start ++ variable_requests env_yes "OLD" VUndefined
  /\ stringValue env_yes VUndefined = "undefined"%string.
Proof.
  apply (removed_variable_is_overwritten env_yes removal_of_old_variable
           start); [reflexivity | discriminate | reflexivity].
Defined.

(** The requests of that run: the existence check and the update to the
    text [undefined]. *)
Example removed_variable_run :
  sent (snd (configure_variables env_yes [("OLD", VStr "1")] [] start))
  = [actions_getOrgVariable "OLD";
     actions_updateOrgVariable "OLD" "undefined"].
Proof. reflexivity. Qed.

End LoopFacts.

(* ================================================================== *)
(** * Properties of the creation of branches *)
(* ================================================================== *)

Module BranchFacts.

Import BranchService.

Local Open Scope list_scope.

Lemma createEach_spec (platform : GitCall -> Error + value) (sha : value)
      (branches : list string) :
  forall results log,
    createEach platform sha branches results log =
      (mkBranchResults
         (created results ++ filter (branch_created platform sha) branches)
         (branch_failed results
          ++ filter (branch_fails platform sha) branches)
         (existing results ++ filter (branch_exists platform sha) branches),
       log ++ map (branch_request sha) branches).
Proof.
  induction branches as [|b branches IH]; intros results log.
  - simpl. rewrite !app_nil_r. destruct results. reflexivity.
  - cbn [createEach filter map].
    unfold branch_created at 1, branch_fails at 1, branch_exists at 1.
    fold (branch_request sha b).
    destruct (platform (branch_request sha b)) as [e|data].
    + destruct (status_is e 422); rewrite IH; cbn [negb created branch_failed
        existing]; rewrite <- !app_assoc; reflexivity.
    + rewrite IH. cbn [created branch_failed existing].
      rewrite <- !app_assoc. reflexivity.
Qed.

Lemma branch_partition (platform : GitCall -> Error + value) (sha : value)
      (branches : list string) :
  List.length (filter (branch_created platform sha) branches)
  + List.length (filter (branch_fails platform sha) branches)
  + List.length (filter (branch_exists platform sha) branches)
  = List.length branches.
Proof.
  induction branches as [|b branches IH]; [reflexivity|].
  cbn [filter]. unfold branch_created at 1, branch_fails at 1,
    branch_exists at 1.
  destruct (platform (branch_request sha b)) as [e|data];
    [destruct (status_is e 422)|]; cbn [negb List.length]; lia.
Qed.





End BranchFacts.

(* ================================================================== *)
(** * Properties of the labels *)
(* ================================================================== *)

Module LabelFacts.

Import Labels.

Local Open Scope list_scope.

Lemma applyLabel_spec (platform : LabelCall -> Error + list value)
      (repo : string) (existingLabels : list value) (label : Label)
      (s : State) :
  applyLabel platform repo existingLabels label s =
    (fst s ++ [label_request repo existingLabels label],
     mkLabelResults (labels_successful (snd s))
       (labels_failed (snd s)
        ++ label_failure platform repo existingLabels label)).
Proof.
  unfold applyLabel, label_failure, label_request, updateRepoLabel,
    createRepoLabel, send, push_label_failed.
  destruct (label_exists existingLabels label);
    match goal with |- context [platform ?c] => destruct (platform c) end;
    cbn [fst snd labels_successful labels_failed message new_Error];
    rewrite ?app_nil_r; rewrite ?BackupFacts.append_assoc;
    destruct s as [log [su fa]]; reflexivity.
Qed.

Lemma applyLabels_spec (platform : LabelCall -> Error + list value)
      (repo : string) (existingLabels : list value) (labels : list Label) :
  forall s,
    fold_left (fun st label => applyLabel platform repo existingLabels label st)
              labels s =
      (fst s ++ map (label_request repo existingLabels) labels,
       mkLabelResults (labels_successful (snd s))
         (labels_failed (snd s)
          ++ flat_map (label_failure platform repo existingLabels) labels)).
Proof.
  induction labels as [|l labels IH]; intros s.
  - simpl. rewrite !app_nil_r. destruct s as [log [su fa]]. reflexivity.
  - cbn [fold_left map flat_map]. rewrite IH, applyLabel_spec.
    cbn [fst snd labels_successful labels_failed].
    rewrite <- !app_assoc. reflexivity.
Qed.

Lemma applyToRepo_spec (platform : LabelCall -> Error + list value)
      (labels : list Label) (repo : string) (s : State) :
  applyToRepo platform labels repo s =
    (fst s ++ repo_requests platform labels repo,
     mkLabelResults
       (labels_successful (snd s)
        ++ (if listable platform repo then [repo] else []))
       (labels_failed (snd s) ++ repo_failures platform labels repo)).
Proof.
  unfold applyToRepo, getRepoLabels, send, repo_requests, repo_failures,
    listable, listed, push_label_successful, push_label_failed.
  destruct (platform (issues_listLabelsForRepo repo)) as [e|data].
  - destruct (status_is e 404).
    + rewrite applyLabels_spec.
      cbn [fst snd labels_successful labels_failed map].
      rewrite <- !app_assoc. reflexivity.
    + cbn [fst snd labels_successful labels_failed message new_Error].
      rewrite app_nil_r, ?BackupFacts.append_assoc.
      destruct s as [log [su fa]]. reflexivity.
  - rewrite applyLabels_spec.
    cbn [fst snd labels_successful labels_failed].
    rewrite <- !app_assoc. reflexivity.
Qed.


End LabelFacts.

(* ================================================================== *)
(** * Properties of the credentials and of the slugs *)
(* ================================================================== *)

Module ClientFacts.

Import GithubClient.

(** X25.  A client is built exactly when the two tokens and the name of
    the organisation are all set and the role is [admin] or [student]: the
    token of the other role is required too.  The client is authenticated
    with the token of the role asked for. *)
Theorem getGithubClient_spec (env : ProcessEnv) (role : string) :
  ((exists c, getGithubClient env role = inr c)
   <-> complete env /\ (role = "admin" \/ role = "student"))
  /\ forall c, getGithubClient env role = inr c ->
       auth c = text (env (if String.eqb role "admin"
                           then "GITHUB_ADMIN_TOKEN"
                           else "GITHUB_STUDENT_TOKEN")).
Proof.
  unfold getGithubClient, loadCredentials, complete.
  destruct (missing (env "GITHUB_ADMIN_TOKEN"));
    [split; [split; [intros [c H]; discriminate | intros [[H _] _];
                     discriminate] | intros c H; discriminate]|].
  destruct (missing (env "GITHUB_STUDENT_TOKEN"));
    [split; [split; [intros [c H]; discriminate | intros [(_ & H & _) _];
                     discriminate] | intros c H; discriminate]|].
  destruct (missing (env "GITHUB_ORG_NAME"));
    [split; [split; [intros [c H]; discriminate | intros [(_ & _ & H) _];
                     discriminate] | intros c H; discriminate]|].
  cbn [adminToken studentToken].
  destruct (String.eqb_spec role "admin") as [Ea|Na].
  - split.
    + split; [intros _; repeat split; left; exact Ea | intros _; eauto].
    + intros c H. injection H as <-. reflexivity.
  - destruct (String.eqb_spec role "student") as [Es|Ns].
    + split.
      * split; [intros _; repeat split; right; exact Es | intros _; eauto].
      * intros c H. injection H as <-. reflexivity.
    + split.
      * split; [intros [c H]; discriminate | intros [_ [H|H]]; contradiction].
      * intros c H. discriminate.
Qed.

(** Without the name of the organisation no client is built, not even for
    the administrator, whose token is set. *)
Example admin_client_needs_organisation :
  getGithubClient env_without_org "admin"
  = inl (new_Error "Missing GITHUB_ORG_NAME environment variable")
  /\ getGithubClient env_complete "admin"
     = inr (mkClientOptions "ghp_admin" "bth-algo-manager v1.0.0"
                            "https://api.github.com").
Proof. split; reflexivity. Qed.

End ClientFacts.

Module SlugFacts.

Import PromptMore.

Lemma slug_run_no_space (s : string) :
  forall in_run, no_space (replace_space_runs "-" in_run (toLowerCase s)) = true.
Proof.
  induction s as [|c s IH]; intros in_run; [reflexivity|].
  cbn [toLowerCase replace_space_runs]. rewrite lower_char_space.
  destruct (is_space c) eqn:E.
  - destruct in_run; [apply IH|].
    cbn [append no_space]. rewrite IH. reflexivity.
  - cbn [no_space]. rewrite lower_char_space, E, IH. reflexivity.
Qed.

Lemma toLowerCase_app (a b : string) :
  toLowerCase (a ++ b) = toLowerCase a ++ toLowerCase b.
Proof.
  induction a as [|c a IH]; [reflexivity|].
  cbn [append toLowerCase]. rewrite IH. reflexivity.
Qed.

Lemma all_space_lower (s : string) : all_space (toLowerCase s) = all_space s.
Proof.
  induction s as [|c s IH]; [reflexivity|].
  cbn [toLowerCase all_space]. rewrite lower_char_space, IH. reflexivity.
Qed.

Lemma space_run (by_ ws rest : string) :
  ws <> "" -> all_space ws = true ->
  forall in_run,
    replace_space_runs by_ in_run (ws ++ rest)
    = (if in_run then "" else by_) ++ replace_space_runs by_ true rest.
Proof.
  induction ws as [|c ws IH]; intros Hne Hall in_run; [contradiction|].
  cbn [all_space] in Hall. apply andb_true_iff in Hall.
  destruct Hall as [Hc Hws].
  cbn [append replace_space_runs]. rewrite Hc.
  destruct ws as [|c' ws'].
  - cbn [append]. destruct in_run; reflexivity.
  - rewrite (IH ltac:(discriminate) Hws).
    destruct in_run; reflexivity.
Qed.

Lemma after_prefix (by_ a x y : string) :
  (forall in_run, replace_space_runs by_ in_run x
                  = replace_space_runs by_ in_run y) ->
  forall in_run, replace_space_runs by_ in_run (a ++ x)
                 = replace_space_runs by_ in_run (a ++ y).
Proof.
  intros H. induction a as [|c a IH]; intros in_run; [apply H|].
  cbn [append replace_space_runs].
  destruct (is_space c); [destruct in_run|]; rewrite IH; reflexivity.
Qed.

(** X26.  The slug a team is looked up by has no white space, and does not
    depend on the case of the letters of the declared name nor on how much
    white space separates its words. *)
Theorem team_slug_of_normalises (a b ws1 ws2 : string) :
  ws1 <> "" -> ws2 <> "" -> all_space ws1 = true -> all_space ws2 = true ->
  no_space (team_slug_of (a ++ ws1 ++ b)) = true
  /\ team_slug_of (toLowerCase (a ++ ws1 ++ b)) = team_slug_of (a ++ ws1 ++ b)
  /\ team_slug_of (a ++ ws1 ++ b) = team_slug_of (a ++ ws2 ++ b).
Proof.
  intros N1 N2 S1 S2. unfold team_slug_of. repeat split.
  - apply slug_run_no_space.
  - rewrite toLowerCase_idem. reflexivity.
  - rewrite !toLowerCase_app. apply after_prefix. intros in_run.
    rewrite !space_run; try (rewrite all_space_lower; assumption);
      try reflexivity.
    + destruct ws2; [contradiction | discriminate].
    + destruct ws1; [contradiction | discriminate].
Qed.

Lemma team_slug_of_normalises_witness :
  no_space (team_slug_of ("Course" ++ " " ++ "Staff")) = true
  /\ team_slug_of (toLowerCase ("Course" ++ " " ++ "Staff"))
     = team_slug_of ("Course" ++ " " ++ "Staff")
  /\ team_slug_of ("Course" ++ " " ++ "Staff")
     = team_slug_of ("Course" ++ "   " ++ "Staff").
Proof.
  apply (team_slug_of_normalises "Course" "Staff" " " "   ");
    first [discriminate | reflexivity].
Defined.

End SlugFacts.
